(** * Rolling replacement of the instances of an AutoScaling group

    A shallow embedding of [aws/asg/rolling/deploy.py] and the properties of
    its batch loop.

    The program talks to three things outside itself: the AutoScaling API
    ([describe_auto_scaling_groups], [set_instance_health]), the EC2 API
    ([Instance.reload]) and a [shelve] file.  The two APIs and the [dbm]
    library that [shelve] sits on are modelled by a record ([cloud]);
    everything the program does to the outside is appended, in program order,
    to a trace of events.  The two [while] loops of the program have no bound,
    so the embedding runs them on fuel and answers [Running] when the fuel is
    used up.

    What [shelve] does depends on the [dbm] library it finds: the order in
    which [keys()] lists the keys, whether an assignment reaches the file
    before [sync()] or [close()], and whether the file it creates has the very
    name it was given.  None of the three is fixed here: they are fields of
    [dbm], and the theorems hold for every choice.

    Every call to an API is taken to answer: an exception raised by [boto3]
    or by [shelve] would end the run where it happens and is not part of the
    embedding.  The exit through [exit(1)], the [TypeError] of subscripting
    [None] and the [FileNotFoundError] of [os.unlink] are. *)

From Stdlib Require Import List ZArith String Bool Arith Lia Permutation Sorted.
Import ListNotations.
Local Open Scope string_scope.
Local Open Scope list_scope.
Local Open Scope Z_scope.

Set Implicit Arguments.

(** ** Data *)

Definition instance_id := string.

(** The two values the program ever stores in the shelf. *)
Inductive replacement_state : Type :=
| pending_replacement
| terminated.

(** A [shelve] mapping, kept in the order in which its keys were first
    assigned.  That is how the mapping is written down here, not the order in
    which [keys()] lists it: see [key_list] for that. *)
Definition shelf := list (instance_id * replacement_state).

(** The keys of a mapping, in the order in which they were first assigned. *)
Definition keys (s : shelf) : list instance_id := map fst s.

Fixpoint setitem (s : shelf) (k : instance_id) (v : replacement_state) : shelf :=
  match s with
  | [] => [(k, v)]
  | (k', v') :: r =>
      if String.eqb k' k then (k', v) :: r else (k', v') :: setitem r k v
  end.

Fixpoint getitem (s : shelf) (k : instance_id) : option replacement_state :=
  match s with
  | [] => None
  | (k', v') :: r => if String.eqb k' k then Some v' else getitem r k
  end.

(** The keys of the local dict [monitored]: [monitored[i] = ...] and
    [del monitored[i]]. *)
Definition dict_add (d : list instance_id) (i : instance_id) : list instance_id :=
  if existsb (String.eqb i) d then d else d ++ [i].

Fixpoint dict_del (d : list instance_id) (i : instance_id) : list instance_id :=
  match d with
  | [] => []
  | j :: r => if String.eqb j i then r else j :: dict_del r i
  end.

(** Python's [l[a:b]] for arbitrary integers [a] and [b]. *)
Definition py_bound (len i : Z) : Z :=
  if i <? 0 then Z.max 0 (i + len) else Z.min i len.

Definition py_slice (A : Type) (l : list A) (a b : Z) : list A :=
  let n := Z.of_nat (List.length l) in
  let lo := py_bound n a in
  let hi := py_bound n b in
  firstn (Z.to_nat (hi - lo)) (skipn (Z.to_nat lo) l).

(** ** The outside world *)

(** One element of ['AutoScalingGroups']: the ['InstanceId'] of each entry of
    its ['Instances']. *)
Record asg_group : Type := { Instances : list instance_id }.

(** The [dbm] library behind [shelve].

    [key_rank ks k]: where [keys()] puts [k] when the keys [ks] were assigned
    in that order; [keys()] lists the keys by rank, and keys of the same rank
    in the order of their first assignment.  A hashed file ranks a key by its
    hash, a library that keeps the order of insertion gives every key the
    same rank.  Any order of distinct keys is the order of some rank (see
    [listing_any_order]), and assigning to a key that is present changes
    neither [ks] nor the order.

    [write_through]: an assignment reaches the file at once; otherwise it
    stays in memory until [sync()] or [close()].

    [at_path]: the file made by [shelve.open(path)] is [path] itself;
    otherwise the library adds a suffix of its own ([.db], [.dat], [.dir]). *)
Record dbm : Type := {
  key_rank : list instance_id -> instance_id -> nat;
  write_through : bool;
  at_path : bool
}.

Fixpoint insert_by (rank : instance_id -> nat) (k : instance_id) (l : list instance_id)
  : list instance_id :=
  match l with
  | [] => [k]
  | x :: r => if (rank k <=? rank x)%nat then k :: x :: r else x :: insert_by rank k r
  end.

(** The keys [ks], assigned in that order, as [keys()] lists them. *)
Definition listing (d : dbm) (ks : list instance_id) : list instance_id :=
  fold_right (insert_by (key_rank d ks)) [] ks.

(** [list(s.keys())] *)
Definition key_list (d : dbm) (s : shelf) : list instance_id := listing d (keys s).

(** The place of [k] in [p], counted from 0. *)
Fixpoint position (p : list instance_id) (k : instance_id) : nat :=
  match p with
  | [] => 0
  | x :: r => if String.eqb x k then 0 else S (position r k)
  end.

(** [describe_auto_scaling_groups name] is the ['AutoScalingGroups'] list of
    the response to [describe_auto_scaling_groups(AutoScalingGroupNames=[name])];
    [instance_state_name n i] is [state['Name']] of instance [i] as loaded by
    the [reload()] made after the [n]-th [sleep(15)] of the run;
    [store_backend] is the [dbm] library that [shelve] uses. *)
Record cloud : Type := {
  describe_auto_scaling_groups : string -> list asg_group;
  instance_state_name : nat -> instance_id -> string;
  store_backend : dbm
}.

Inductive level : Type := DEBUG | INFO | ERROR.

Inductive message : Type :=
| MsgProcessingBatch (batch : Z)
| MsgStoringState (asg_name : string)
| MsgAdding (i : instance_id)
| MsgFetching (asg_name : string)
| MsgFound
| MsgNotFound (asg_name : string)
| MsgTriggering (i : instance_id)
| MsgWaiting (ids : list instance_id)
| MsgDots
| MsgDone
| MsgTotal (n : Z)
| MsgPending (n : Z)
| MsgRemovalList (remove : list instance_id).

Inductive event : Type :=
| EvLog (l : level) (m : message)
| EvShelveOpen (store_file : string)
| EvDescribeGroups (asg_name : string)
| EvSetItem (k : instance_id) (v : replacement_state)
| EvSync
| EvSetInstanceHealth (i : instance_id)
| EvSleep (seconds : Z)
| EvReload (i : instance_id) (name : string)
| EvUnlink (path : string).

(** ** Process state and outcomes *)

(** [disk]: what the store file holds on disk, [None] when there is no such
    file.  [state]: the mapping that [self.inventory.state] shows once it is
    open: what the file held when it was opened and the assignments made
    since, flushed or not.  [rounds]: the number of [sleep(15)] calls made so
    far. *)
Record proc : Type := mkProc {
  disk : option shelf;
  state : shelf;
  rounds : nat;
  trace : list event
}.

Inductive exn : Type := TypeError | FileNotFoundError.

Inductive outcome (A : Type) : Type :=
| Returned (a : A) (st : proc)
| Exited (code : Z) (st : proc)
| Raised (e : exn) (st : proc)
| Running (st : proc).

Arguments Exited {A} code st.
Arguments Raised {A} e st.
Arguments Running {A} st.

Definition final (A : Type) (o : outcome A) : proc :=
  match o with
  | Returned _ st | Exited _ st | Raised _ st | Running st => st
  end.

Definition M (A : Type) : Type := proc -> outcome A.

Definition ret (A : Type) (a : A) : M A := fun st => Returned a st.

Definition bind (A B : Type) (m : M A) (f : A -> M B) : M B :=
  fun st =>
    match m st with
    | Returned a st' => f a st'
    | Exited c st' => Exited c st'
    | Raised e st' => Raised e st'
    | Running st' => Running st'
    end.

Declare Scope py_scope.
Delimit Scope py_scope with py.
Notation "x <- m ;; k" := (bind m (fun x => k))
  (at level 61, m at next level, right associativity) : py_scope.
Notation "m ;; k" := (bind m (fun _ => k))
  (at level 61, right associativity) : py_scope.
Local Open Scope py_scope.

Definition emit (e : event) : M unit :=
  fun st => Returned tt (mkProc (disk st) (state st) (rounds st) (trace st ++ [e])).

Definition log (l : level) (m : message) : M unit := emit (EvLog l m).

Definition exit (A : Type) (code : Z) : M A := fun st => Exited code st.

Definition raise (A : Type) (e : exn) : M A := fun st => Raised e st.

Definition out_of_fuel (A : Type) : M A := fun st => Running st.

Arguments exit {A} code.
Arguments raise {A} e.
Arguments out_of_fuel {A}.

Fixpoint for_each (A : Type) (l : list A) (body : A -> M unit) : M unit :=
  match l with
  | [] => ret tt
  | x :: r => body x ;; for_each r body
  end.

(** [shelve.open(store_file)]: the default flag creates the file when it is
    missing and keeps what an existing file holds. *)
Definition shelve_open (store_file : string) : M unit :=
  fun st =>
    Returned tt (mkProc (Some (state st)) (state st) (rounds st)
                        (trace st ++ [EvShelveOpen store_file])).

(** [self.state[k] = v]: the file follows only when the library writes
    through. *)
Definition state_setitem (w : cloud) (k : instance_id) (v : replacement_state) : M unit :=
  fun st =>
    Returned tt (mkProc (if write_through (store_backend w)
                         then Some (setitem (state st) k v) else disk st)
                        (setitem (state st) k v) (rounds st)
                        (trace st ++ [EvSetItem k v])).

(** [self.state.sync()] *)
Definition state_sync : M unit :=
  fun st =>
    Returned tt (mkProc (Some (state st)) (state st) (rounds st) (trace st ++ [EvSync])).

(** [list(self.inventory.state.keys())] *)
Definition state_keys (w : cloud) : M (list instance_id) :=
  fun st => Returned (key_list (store_backend w) (state st)) st.

Definition state_len : M Z := fun st => Returned (Z.of_nat (List.length (state st))) st.

(** [sleep(15)] *)
Definition sleep (seconds : Z) : M unit :=
  fun st =>
    Returned tt (mkProc (disk st) (state st) (S (rounds st))
                        (trace st ++ [EvSleep seconds])).

(** [os.unlink(path)] on the path given to [shelve.open]: it removes the
    store file when the library made it under that very name, and raises
    [FileNotFoundError] otherwise, leaving the file of the library where it
    is. *)
Definition unlink (w : cloud) (path : string) : M unit :=
  fun st =>
    match at_path (store_backend w), disk st with
    | true, Some _ =>
        Returned tt (mkProc None (state st) (rounds st) (trace st ++ [EvUnlink path]))
    | _, _ =>
        Raised FileNotFoundError
               (mkProc (disk st) (state st) (rounds st) (trace st ++ [EvUnlink path]))
    end.

(** What the store file holds on disk, if there is one. *)
Definition store_file_of (st : proc) : option shelf := disk st.

(** The process at start: [file] is what the store file holds, if there is
    one; [state] is what the shelf will show once it is opened. *)
Definition boot (file : option shelf) : proc :=
  match file with
  | Some s => mkProc (Some s) s 0 []
  | None => mkProc None [] 0 []
  end.

(** ** The program *)

Record args : Type := {
  batch : Z;
  group : string;
  region : string;
  state_path : string
}.

(** The end of [parse_args]. *)
Definition parse_args (a : args) : args :=
  if String.eqb (state_path a) "dynamic"
  then {| batch := batch a; group := group a; region := region a;
          state_path := (group a ++ ".state")%string |}
  else a.

Section Program.

Variable w : cloud.

(** *** class Inventory *)

(** [query_asg]: one match returns it, none logs an error and exits with
    status 1, and with more than one neither branch is taken and the
    function returns [None]. *)
Definition query_asg (asg_name : string) : M (option asg_group) :=
  log INFO (MsgFetching asg_name) ;;
  emit (EvDescribeGroups asg_name) ;;
  match describe_auto_scaling_groups w asg_name with
  | [g] => log INFO MsgFound ;; ret (Some g)
  | [] => log ERROR (MsgNotFound asg_name) ;; exit 1
  | _ :: _ :: _ => ret None
  end.

(** [new_instance_state]: the shelf is opened first; subscripting the [None]
    that [query_asg] may return raises [TypeError]. *)
Definition new_instance_state (asg_name store_file : string) : M unit :=
  log INFO (MsgStoringState asg_name) ;;
  shelve_open store_file ;;
  r <- query_asg asg_name ;;
  match r with
  | None => raise TypeError
  | Some g =>
      for_each (Instances g)
        (fun i => log INFO (MsgAdding i) ;; state_setitem w i pending_replacement)
  end.

Definition update_state (instance : instance_id) (v : replacement_state) : M unit :=
  state_setitem w instance v ;;
  state_sync.


(** *** class Deploy *)

Definition trigger_instance_removal (i : instance_id) : M unit :=
  log INFO (MsgTriggering i) ;;
  emit (EvSetInstanceHealth i).

(** [monitored[i].reload()] followed by reading [monitored[i].state['Name']]. *)
Definition reload (i : instance_id) : M string :=
  fun st =>
    let name := instance_state_name w (rounds st) i in
    Returned name (mkProc (disk st) (state st) (rounds st)
                          (trace st ++ [EvReload i name])).

(** The body of [for i in list(monitored.keys())]: [ks] is the copy of the
    keys being walked, [monitored] the dict as it shrinks. *)
Fixpoint poll (ks monitored : list instance_id) : M (list instance_id) :=
  match ks with
  | [] => ret monitored
  | i :: ks' =>
      name <- reload i ;;
      if String.eqb name "terminated"
      then state_setitem w i terminated ;; poll ks' (dict_del monitored i)
      else poll ks' monitored
  end.

(** [while len(monitored) > 0] *)
Fixpoint monitor_loop (fuel : nat) (monitored : list instance_id) : M unit :=
  match monitored with
  | [] => ret tt
  | _ :: _ =>
      match fuel with
      | O => out_of_fuel
      | S fuel' =>
          sleep 15 ;;
          log INFO MsgDots ;;
          monitored' <- poll monitored monitored ;;
          monitor_loop fuel' monitored'
      end
  end.

Definition monitor_instance_termination (fuel : nat) (instance_ids : list instance_id)
  : M unit :=
  let monitored := fold_left dict_add instance_ids [] in
  log INFO (MsgWaiting monitored) ;;
  monitor_loop fuel monitored ;;
  log INFO MsgDone.

(** [while instance_index < total_instances] *)
Fixpoint execute_loop (fuel : nat) (batch total_instances instance_index : Z) : M unit :=
  if instance_index <? total_instances then
    match fuel with
    | O => out_of_fuel
    | S fuel' =>
        log INFO (MsgPending (total_instances - instance_index)) ;;
        ks <- state_keys w ;;
        let remove := py_slice ks instance_index (instance_index + batch) in
        log DEBUG (MsgRemovalList remove) ;;
        for_each remove trigger_instance_removal ;;
        monitor_instance_termination fuel' remove ;;
        execute_loop fuel' batch total_instances (instance_index + batch)
    end
  else ret tt.

Definition execute (fuel : nat) (target_asg : string) (batch : Z) (store_file : string)
  : M unit :=
  log INFO (MsgProcessingBatch batch) ;;
  new_instance_state target_asg store_file ;;
  total_instances <- state_len ;;
  log INFO (MsgTotal total_instances) ;;
  execute_loop fuel batch total_instances 0.

(** The [__main__] block after argument parsing. *)
Definition main (fuel : nat) (a : args) : M unit :=
  execute fuel (group a) (batch a) (state_path a) ;;
  unlink w (state_path a).

End Program.

(** ** Traces, batches and example inputs *)

(** *** Observing a trace *)

(** The instances marked unhealthy, in the order of the calls. *)
Definition triggers (tr : list event) : list instance_id :=
  flat_map (fun e => match e with EvSetInstanceHealth i => [i] | _ => [] end) tr.

(** The removal list of every iteration of the batch loop (line 124). *)
Definition removal_lists (tr : list event) : list (list instance_id) :=
  flat_map (fun e => match e with EvLog DEBUG (MsgRemovalList l) => [l] | _ => [] end) tr.

(** [total_instances - instance_index] as logged at the head of every
    iteration of the batch loop (line 122). *)
Definition pendings (tr : list event) : list Z :=
  flat_map (fun e => match e with EvLog INFO (MsgPending n) => [n] | _ => [] end) tr.

(** The shelf after the assignments recorded in a trace. *)
Definition apply_event (s : shelf) (e : event) : shelf :=
  match e with
  | EvSetItem k v => setitem s k v
  | _ => s
  end.

Definition replay (s : shelf) (tr : list event) : shelf := fold_left apply_event tr s.

(** The store file after the events [tr], from a file holding [d] and a
    mapping [s]: an assignment reaches the file when the library writes
    through, a [sync()] always does. *)
Fixpoint disk_after (w : cloud) (d : option shelf) (s : shelf) (tr : list event)
  : option shelf :=
  match tr with
  | [] => d
  | e :: r =>
      disk_after w
        (match e with
         | EvSetItem k v =>
             if write_through (store_backend w) then Some (setitem s k v) else d
         | EvSync => Some s
         | _ => d
         end)
        (apply_event s e) r
  end.

(** *** The events of polling and of the batch loop *)

(** What the polling of the instances in [ids] may do: sleep, log, reload an
    instance of [ids], and store [terminated] for an instance of [ids]. *)
Definition monitor_event (ids : list instance_id) (e : event) : Prop :=
  match e with
  | EvSleep _ => True
  | EvLog INFO MsgDots | EvLog INFO (MsgWaiting _) | EvLog INFO MsgDone => True
  | EvReload i _ => In i ids
  | EvSetItem i v => In i ids /\ v = terminated
  | _ => False
  end.

(** What the batch loop may do over the keys [K]: what polling does, the two
    log lines at the head of an iteration, and marking an instance of [K]
    unhealthy. *)
Definition loop_event (K : list instance_id) (e : event) : Prop :=
  match e with
  | EvSleep _ => True
  | EvLog ERROR _ => False
  | EvLog _ _ => True
  | EvReload i _ => In i K
  | EvSetItem i v => In i K /\ v = terminated
  | EvSetInstanceHealth i => In i K
  | _ => False
  end.

Definition trigger_events (remove : list instance_id) : list event :=
  flat_map (fun i => [EvLog INFO (MsgTriggering i); EvSetInstanceHealth i]) remove.

(** The events of one pass of [for i in list(monitored.keys())] made after
    [t] sleeps. *)
Definition poll_events (w : cloud) (t : nat) (ks : list instance_id) : list event :=
  flat_map (fun i =>
              EvReload i (instance_state_name w t i) ::
              (if String.eqb (instance_state_name w t i) "terminated"
               then [EvSetItem i terminated] else [])) ks.

Definition seen_terminated (w : cloud) (t : nat) (i : instance_id) : bool :=
  String.eqb (instance_state_name w t i) "terminated".

(** [st'] is [st] after the events [ext], which account for every change of
    the shelf. *)
Definition extends (w : cloud) (st st' : proc) (ext : list event) : Prop :=
  trace st' = trace st ++ ext /\
  state st' = replay (state st) ext /\
  disk st' = disk_after w (disk st) (state st) ext /\
  (rounds st <= rounds st')%nat.

(** One round of the polling loop: the process after it, and the instances
    still monitored. *)
Definition after_round (w : cloud) (monitored : list instance_id) (st : proc) : proc :=
  mkProc (disk_after w (disk st) (state st) (poll_events w (S (rounds st)) monitored))
         (replay (state st) (poll_events w (S (rounds st)) monitored))
         (S (rounds st))
         (trace st ++ [EvSleep 15; EvLog INFO MsgDots]
                   ++ poll_events w (S (rounds st)) monitored).

Definition still_monitored (w : cloud) (monitored : list instance_id) (st : proc)
  : list instance_id :=
  fold_left dict_del (filter (seen_terminated w (S (rounds st))) monitored) monitored.

(** *** The shape of the batch loop *)

(** The start of an iteration of the batch loop at cursor [idx]: the two log
    lines, then the removal triggers of the slice. *)
Definition iteration_head (K : list instance_id) (B N idx : Z) : list event :=
  [EvLog INFO (MsgPending (N - idx)); EvLog DEBUG (MsgRemovalList (py_slice K idx (idx + B)))]
    ++ trigger_events (py_slice K idx (idx + B)).

(** The shape of what the batch loop does from cursor [idx] on, over the keys
    [K]: iterations follow one another, each made of its head and of the
    polling of its slice, and an iteration is followed by another only when
    every instance of its slice was seen terminated.  The flag tells whether
    the loop ran to its end. *)
Inductive batched (K : list instance_id) (B N : Z) : bool -> Z -> list event -> Prop :=
| batched_done idx :
    N <= idx -> batched K B N true idx []
| batched_fuel idx :
    idx < N -> batched K B N false idx []
| batched_polling idx mon_ext :
    idx < N ->
    Forall (monitor_event (py_slice K idx (idx + B))) mon_ext ->
    batched K B N false idx (iteration_head K B N idx ++ mon_ext)
| batched_next c idx mon_ext rest :
    idx < N ->
    Forall (monitor_event (py_slice K idx (idx + B))) mon_ext ->
    (forall i, In i (py_slice K idx (idx + B)) ->
               In (EvReload i "terminated") mon_ext /\ In (EvSetItem i terminated) mon_ext) ->
    batched K B N c (idx + B) rest ->
    batched K B N c idx (iteration_head K B N idx ++ mon_ext ++ rest).

(** The slice the loop takes in its iteration number [k] (counted from 0)
    when the cursor started at 0: [K[k*B : k*B + B]]. *)
Definition batch_no (K : list instance_id) (B : Z) (k : nat) : list instance_id :=
  py_slice K (Z.of_nat k * B) (Z.of_nat k * B + B).

(** The batches of the first [n] iterations. *)
Definition batches (K : list instance_id) (b n : nat) : list (list instance_id) :=
  map (batch_no K (Z.of_nat b)) (seq 0 n).

(** *** The snapshot *)

(** The shelf after [new_instance_state] assigned [pending_replacement] to
    each instance of the group, over whatever the store file held. *)
Definition add_pending (s : shelf) (ids : list instance_id) : shelf :=
  fold_left (fun s i => setitem s i pending_replacement) ids s.

Definition snapshot (g : asg_group) (file : option shelf) : shelf :=
  add_pending (state (boot file)) (Instances g).

Definition adding_events (ids : list instance_id) : list event :=
  flat_map (fun i => [EvLog INFO (MsgAdding i); EvSetItem i pending_replacement]) ids.

(** What [execute] does up to the call of [describe_auto_scaling_groups]. *)
Definition query_events (asg_name : string) (B : Z) (store_file : string) : list event :=
  [EvLog INFO (MsgProcessingBatch B); EvLog INFO (MsgStoringState asg_name);
   EvShelveOpen store_file; EvLog INFO (MsgFetching asg_name); EvDescribeGroups asg_name].

(** What [execute] does before it enters the batch loop, when the group is
    found. *)
Definition snapshot_events (asg_name : string) (B : Z) (store_file : string)
           (g : asg_group) (s0 : shelf) : list event :=
  query_events asg_name B store_file ++ [EvLog INFO MsgFound] ++
  adding_events (Instances g) ++
  [EvLog INFO (MsgTotal (Z.of_nat (List.length (add_pending s0 (Instances g)))))].

(** Every instance of [ids] reports [terminated] from some polling round on. *)
Definition eventually_terminated (w : cloud) (ids : list instance_id) : Prop :=
  forall i, In i ids ->
            exists T, forall t, (T <= t)%nat -> instance_state_name w t i = "terminated".

(** The store file holds a mapping: no key twice. *)
Definition wf_store (file : option shelf) : Prop := NoDup (keys (state (boot file))).

(** An iteration of the batch loop with an empty slice. *)
Definition idle_iteration (n : Z) : list event :=
  [EvLog INFO (MsgPending n); EvLog DEBUG (MsgRemovalList []);
   EvLog INFO (MsgWaiting []); EvLog INFO MsgDone].

(** *** Partitions *)

(** [bs] cuts [K] into consecutive batches of [B] keys: there are
    [ceil (N / B)] of them, batch number [k] is the slice [K[k*B : k*B + B]],
    all but the last hold [B] keys and the last holds [N mod B] keys, or [B]
    when that is 0. *)
Definition partition_of (K : list instance_id) (B : Z) (bs : list (list instance_id)) : Prop :=
  let N := Z.of_nat (List.length K) in
  Z.of_nat (List.length bs) = (N + B - 1) / B /\
  bs = map (batch_no K B) (seq 0 (List.length bs)) /\
  List.concat bs = K /\
  (forall k, (S k < List.length bs)%nat -> Z.of_nat (List.length (nth k bs [])) = B) /\
  (bs <> [] ->
   Z.of_nat (List.length (last bs [])) = if N mod B =? 0 then B else N mod B).

(** A call that is rejected before scheduling: it ends with an exit status or
    an exception, it has neither opened the store nor queried the group, and
    it has issued no removal trigger. *)
Definition rejected_before_scheduling (o : outcome unit) : Prop :=
  ((exists code st, o = Exited code st) \/ (exists e st, o = Raised e st)) /\
  (forall f, ~ In (EvShelveOpen f) (trace (final o))) /\
  (forall name, ~ In (EvDescribeGroups name) (trace (final o))) /\
  triggers (trace (final o)) = [].

(** *** Example inputs *)

(** A group of five instances that report [terminated] from the second
    polling round on, replaced two at a time. *)
Definition demo_group : asg_group := {| Instances := ["i1"; "i2"; "i3"; "i4"; "i5"] |}.

(** A library that lists the keys in the order of insertion, writes through
    and keeps the store in the file it was given. *)
Definition ordered_dbm : dbm :=
  {| key_rank := fun _ _ => 0%nat; write_through := true; at_path := true |}.

(** A hashed library: it lists i1, i3, i5, i2, i4 in that order whatever the
    order of insertion, keeps the assignments in memory until they are
    flushed, and adds a suffix to the name of the file. *)
Definition hashed_dbm : dbm :=
  {| key_rank := fun _ k =>
       if String.eqb k "i1" then 1%nat else
       if String.eqb k "i3" then 2%nat else
       if String.eqb k "i5" then 3%nat else
       if String.eqb k "i2" then 4%nat else
       if String.eqb k "i4" then 5%nat else 0%nat;
     write_through := false;
     at_path := false |}.

Definition demo_cloud : cloud :=
  {| describe_auto_scaling_groups := fun _ => [demo_group];
     instance_state_name := fun n _ => if (2 <=? n)%nat then "terminated" else "running";
     store_backend := ordered_dbm |}.

(** The same group and instances over the hashed library. *)
Definition hashed_cloud : cloud :=
  {| describe_auto_scaling_groups := fun _ => [demo_group];
     instance_state_name := fun n _ => if (2 <=? n)%nat then "terminated" else "running";
     store_backend := hashed_dbm |}.

Definition demo_args : args :=
  {| batch := 2; group := "g"; region := "eu-west-1"; state_path := "g.state" |}.

(** The same group with a batch size of 0. *)
Definition idle_args : args :=
  {| batch := 0; group := "g"; region := "eu-west-1"; state_path := "g.state" |}.

(** A batch size of -1. *)
Definition negative_args : args :=
  {| batch := -1; group := "g"; region := "eu-west-1"; state_path := "g.state" |}.

(** A region in which no group has the name asked for. *)
Definition empty_cloud : cloud :=
  {| describe_auto_scaling_groups := fun _ => [];
     instance_state_name := fun _ _ => "running";
     store_backend := ordered_dbm |}.

(** A region that answers with two groups for the name asked for. *)
Definition twin_cloud : cloud :=
  {| describe_auto_scaling_groups :=
       fun _ => [ {| Instances := ["i1"] |}; {| Instances := ["i2"] |} ];
     instance_state_name := fun _ _ => "terminated";
     store_backend := ordered_dbm |}.

(** *** Reading more of a trace *)

(** [i] was reloaded with the state name [terminated] in [tr]. *)
Definition seen_in (tr : list event) (i : instance_id) : bool :=
  existsb (fun e => match e with
                    | EvReload j name => String.eqb j i && String.eqb name "terminated"
                    | _ => false
                    end) tr.

(** The instances marked unhealthy in [tr] and not seen terminated in [tr]:
    those the run has taken out of service and is still waiting for. *)
Definition outstanding (tr : list event) : list instance_id :=
  filter (fun i => negb (seen_in tr i)) (triggers tr).

(** A trace in which [terminated] is stored for an instance right after a
    reload showed that state for it, and at no other moment. *)
Inductive recorded : list event -> Prop :=
| recorded_nil : recorded []
| recorded_seen i r :
    recorded r -> recorded (EvReload i "terminated" :: EvSetItem i terminated :: r)
| recorded_other e r :
    (forall i, e <> EvReload i "terminated") ->
    (forall i, e <> EvSetItem i terminated) ->
    recorded r -> recorded (e :: r).

(** A reload shows a state name that the EC2 API gave for that instance. *)
Definition genuine (w : cloud) (e : event) : Prop :=
  match e with
  | EvReload i name => exists t, name = instance_state_name w t i
  | _ => True
  end.

(** The instance an event acts on: the one marked unhealthy, reloaded, or
    assigned in the store. *)
Definition touched (e : event) : option instance_id :=
  match e with
  | EvSetInstanceHealth i | EvReload i _ | EvSetItem i _ => Some i
  | _ => None
  end.



(** A store file left by an earlier run, and an instance that never
    terminates. *)
Definition stale_file : option shelf := Some [("i0", terminated)].


Definition stuck_cloud : cloud :=
  {| describe_auto_scaling_groups := fun _ => [demo_group];
     instance_state_name :=
       fun n i => if String.eqb i "i3" then "shutting-down"
                  else if (2 <=? n)%nat then "terminated" else "running";
     store_backend := hashed_dbm |}.

(** * Proofs *)

(** ** The shelf as a mapping *)

Section Shelf.

Lemma keys_setitem_in (s : shelf) k v :
  In k (keys s) -> keys (setitem s k v) = keys s.
Proof.
  induction s as [|[k' v'] r IH]; simpl; [tauto|].
  intros [E | Hin]; destruct (String.eqb_spec k' k); simpl; try congruence.
  f_equal. apply IH. exact Hin.
Qed.

Lemma keys_setitem_notin (s : shelf) k v :
  ~ In k (keys s) -> keys (setitem s k v) = keys s ++ [k].
Proof.
  induction s as [|[k' v'] r IH]; simpl; [reflexivity|].
  intros Hn. destruct (String.eqb_spec k' k).
  - exfalso. apply Hn. now left.
  - simpl. f_equal. apply IH. tauto.
Qed.

Lemma keys_setitem_incl (s : shelf) k v : incl (keys s) (keys (setitem s k v)).
Proof.
  destruct (in_dec string_dec k (keys s)) as [Hin | Hn].
  - rewrite keys_setitem_in by exact Hin. apply incl_refl.
  - rewrite keys_setitem_notin by exact Hn. apply incl_appl, incl_refl.
Qed.

Lemma in_keys_setitem (s : shelf) k v : In k (keys (setitem s k v)).
Proof.
  destruct (in_dec string_dec k (keys s)) as [Hin | Hn].
  - rewrite keys_setitem_in by exact Hin. exact Hin.
  - rewrite keys_setitem_notin by exact Hn. apply in_or_app. right. now left.
Qed.

Lemma NoDup_keys_setitem (s : shelf) k v :
  NoDup (keys s) -> NoDup (keys (setitem s k v)).
Proof.
  intros Hnd. destruct (in_dec string_dec k (keys s)) as [Hin | Hn].
  - rewrite keys_setitem_in by exact Hin. exact Hnd.
  - rewrite keys_setitem_notin by exact Hn.
    apply NoDup_app; [exact Hnd | repeat constructor; simpl; tauto |].
    intros x Hx [<- | []]. exact (Hn Hx).
Qed.

Lemma getitem_setitem_same (s : shelf) k v : getitem (setitem s k v) k = Some v.
Proof.
  induction s as [|[k' v'] r IH]; simpl.
  - now rewrite String.eqb_refl.
  - destruct (String.eqb_spec k' k) as [E | N]; simpl.
    + subst. now rewrite String.eqb_refl.
    + destruct (String.eqb_spec k' k); [contradiction | exact IH].
Qed.

Lemma getitem_setitem_other (s : shelf) k v k' :
  k <> k' -> getitem (setitem s k v) k' = getitem s k'.
Proof.
  intros Hne. induction s as [|[k0 v0] r IH]; simpl.
  - destruct (String.eqb_spec k k'); [contradiction | reflexivity].
  - destruct (String.eqb_spec k0 k) as [E | N]; simpl.
    + subst. destruct (String.eqb_spec k k'); [contradiction | reflexivity].
    + now rewrite IH.
Qed.

Lemma getitem_in_keys (s : shelf) k v : getitem s k = Some v -> In k (keys s).
Proof.
  induction s as [|[k' v'] r IH]; simpl; [discriminate|].
  destruct (String.eqb_spec k' k); [now left | right; now apply IH].
Qed.


(** With distinct keys, a shelf whose every key reads [v] holds [v] in
    every entry. *)
Lemma all_values (s : shelf) v :
  NoDup (keys s) ->
  (forall k, In k (keys s) -> getitem s k = Some v) ->
  Forall (fun kv => snd kv = v) s.
Proof.
  induction s as [|[k' v'] r IH]; simpl; intros Hnd Hall; constructor.
  - specialize (Hall k' (or_introl eq_refl)). rewrite String.eqb_refl in Hall.
    simpl. congruence.
  - inversion Hnd as [|? ? Hk' Hr]; subst. apply IH; [exact Hr|].
    intros k Hk. specialize (Hall k (or_intror Hk)).
    destruct (String.eqb_spec k' k); [subst; contradiction | exact Hall].
Qed.

Lemma length_keys (s : shelf) : List.length (keys s) = List.length s.
Proof. apply length_map. Qed.

End Shelf.

(** ** The order in which the keys are listed *)

Section Listing.

Variable d : dbm.

Lemma insert_by_perm (rank : instance_id -> nat) (k : instance_id) (l : list instance_id) :
  Permutation (insert_by rank k l) (k :: l).
Proof.
  induction l as [|x r IH]; simpl; [reflexivity|].
  destruct (rank k <=? rank x)%nat; [reflexivity|].
  rewrite IH. apply perm_swap.
Qed.

Lemma sort_by_perm (rank : instance_id -> nat) (l : list instance_id) :
  Permutation (fold_right (insert_by rank) [] l) l.
Proof.
  induction l as [|x r IH]; simpl; [reflexivity|].
  rewrite insert_by_perm. now constructor.
Qed.

(** [keys()] lists every key once, whatever the library. *)
Lemma key_list_perm (s : shelf) : Permutation (key_list d s) (keys s).
Proof. apply sort_by_perm. Qed.

Lemma in_key_list (s : shelf) (k : instance_id) : In k (key_list d s) <-> In k (keys s).
Proof.
  split; apply Permutation_in; [apply key_list_perm | symmetry; apply key_list_perm].
Qed.

Lemma key_list_incl (s : shelf) : incl (key_list d s) (keys s).
Proof. intros k. apply in_key_list. Qed.

Lemma length_key_list (s : shelf) : List.length (key_list d s) = List.length s.
Proof. rewrite (Permutation_length (key_list_perm s)). apply length_keys. Qed.

Lemma NoDup_key_list (s : shelf) : NoDup (keys s) -> NoDup (key_list d s).
Proof. apply Permutation_NoDup. symmetry. apply key_list_perm. Qed.

(** Mappings with the same keys, first assigned in the same order, are listed
    alike: an assignment to a key that is present does not move it. *)
Lemma key_list_same_keys (s s' : shelf) : keys s' = keys s -> key_list d s' = key_list d s.
Proof. unfold key_list. now intros ->. Qed.

End Listing.

(** *** Every order is the order of some library *)

Section AnyOrder.

Variable rank : instance_id -> nat.

Let before (x y : instance_id) : Prop := (rank x < rank y)%nat.

Lemma insert_by_sorted (k : instance_id) (l : list instance_id) :
  StronglySorted before l ->
  (forall x, In x l -> rank x <> rank k) ->
  StronglySorted before (insert_by rank k l).
Proof.
  induction l as [|x r IH]; intros Hs Hne; simpl.
  - constructor; constructor.
  - inversion Hs as [|? ? Hr Hall]; subst.
    pose proof (Hne x (or_introl eq_refl)) as Hx.
    destruct (Nat.leb_spec (rank k) (rank x)) as [Hle | Hlt].
    + constructor; [exact Hs|]. constructor; [unfold before; lia|].
      eapply Forall_impl; [|exact Hall]. unfold before. intros y Hy. lia.
    + constructor.
      * apply IH; [exact Hr|]. intros y Hy. apply Hne. now right.
      * rewrite Forall_forall. intros y Hy.
        apply (Permutation_in _ (insert_by_perm rank k r)) in Hy.
        destruct Hy as [<- | Hy]; [exact Hlt|].
        rewrite Forall_forall in Hall. now apply Hall.
Qed.

Lemma sort_by_sorted (l : list instance_id) :
  (forall x y, In x l -> In y l -> rank x = rank y -> x = y) ->
  NoDup l ->
  StronglySorted before (fold_right (insert_by rank) [] l).
Proof.
  induction l as [|k r IH]; intros Hinj Hnd; simpl; [constructor|].
  inversion Hnd as [|? ? Hk Hr]; subst.
  apply insert_by_sorted.
  - apply IH; [|exact Hr]. intros x y Hx Hy. apply Hinj; now right.
  - intros x Hx E. apply (Permutation_in _ (sort_by_perm rank r)) in Hx.
    apply Hk. rewrite <- (Hinj x k); [exact Hx | now right | now left | exact E].
Qed.

Lemma sorted_unique (l1 l2 : list instance_id) :
  StronglySorted before l1 -> StronglySorted before l2 -> Permutation l1 l2 -> l1 = l2.
Proof.
  revert l2. induction l1 as [|x r IH]; intros l2 H1 H2 Hp.
  - apply Permutation_nil in Hp. now subst.
  - destruct l2 as [|y r2]; [apply Permutation_sym, Permutation_nil in Hp; discriminate|].
    inversion H1 as [|? ? Hr1 Ha1]; inversion H2 as [|? ? Hr2 Ha2]; subst.
    assert (E : x = y).
    { assert (Hx : In x (y :: r2)) by (eapply Permutation_in; [exact Hp | now left]).
      assert (Hy : In y (x :: r))
        by (eapply Permutation_in; [symmetry; exact Hp | now left]).
      destruct Hx as [-> | Hx]; [reflexivity|]. destruct Hy as [-> | Hy]; [reflexivity|].
      rewrite Forall_forall in Ha1, Ha2.
      specialize (Ha1 _ Hy). specialize (Ha2 _ Hx). unfold before in *. lia. }
    subst y. f_equal. apply IH; [exact Hr1 | exact Hr2|].
    eapply Permutation_cons_inv, Hp.
Qed.

End AnyOrder.

Lemma position_inj (p : list instance_id) (x y : instance_id) :
  In x p -> In y p -> position p x = position p y -> x = y.
Proof.
  induction p as [|a p IH]; simpl; [tauto|]. intros Hx Hy.
  destruct (String.eqb_spec a x) as [Ex | Nx], (String.eqb_spec a y) as [Ey | Ny];
    try congruence; try discriminate.
  intros E. injection E as E. apply IH; tauto.
Qed.

Lemma position_sorted (p : list instance_id) :
  NoDup p -> StronglySorted (fun x y => (position p x < position p y)%nat) p.
Proof.
  induction 1 as [|a p Ha Hnd IH]; [constructor|].
  assert (Hs : forall x, In x p -> position (a :: p) x = S (position p x)).
  { intros x Hx. simpl. destruct (String.eqb_spec a x) as [-> | N]; [contradiction | reflexivity]. }
  assert (Ha0 : position (a :: p) a = 0%nat) by (simpl; now rewrite String.eqb_refl).
  constructor.
  - assert (G : forall l, incl l p ->
                StronglySorted (fun x y => (position p x < position p y)%nat) l ->
                StronglySorted (fun x y => (position (a :: p) x < position (a :: p) y)%nat) l).
    { intros l Hl Hsl. induction Hsl as [|x l Hsl IHl Hall]; [constructor|].
      constructor.
      - apply IHl. intros z Hz. apply Hl. now right.
      - rewrite Forall_forall in *. intros y Hy.
        rewrite !Hs by (apply Hl; simpl; auto). specialize (Hall _ Hy). lia. }
    apply G; [apply incl_refl | exact IH].
  - rewrite Forall_forall. intros y Hy. rewrite Ha0, Hs by exact Hy. lia.
Qed.

(** Whatever order [p] the keys [ks] are to be listed in, some library lists
    them so: the model leaves the order of [keys()] free. *)
Lemma listing_any_order (ks p : list instance_id) (through named : bool) :
  NoDup ks -> Permutation ks p ->
  listing {| key_rank := fun _ => position p; write_through := through; at_path := named |}
          ks = p.
Proof.
  intros Hnd Hp. unfold listing. cbn [key_rank].
  apply sorted_unique with (rank := position p).
  - apply sort_by_sorted; [|exact Hnd].
    intros x y Hx Hy. apply position_inj; eapply Permutation_in; eauto.
  - apply position_sorted. eapply Permutation_NoDup; eauto.
  - rewrite sort_by_perm. exact Hp.
Qed.

(** ** Slices with a non-negative start and a positive width *)

Section Slices.

Variable A : Type.

Lemma py_slice_nat (l : list A) (n b : nat) :
  py_slice l (Z.of_nat n) (Z.of_nat n + Z.of_nat b) = firstn b (skipn n l).
Proof.
  unfold py_slice, py_bound.
  destruct (Z.ltb_spec (Z.of_nat n) 0); [lia|].
  destruct (Z.ltb_spec (Z.of_nat n + Z.of_nat b) 0); [lia|].
  destruct (Nat.le_gt_cases n (List.length l)) as [Hle | Hgt].
  - replace (Z.to_nat (Z.min (Z.of_nat n) (Z.of_nat (List.length l)))) with n by lia.
    destruct (Nat.le_gt_cases (n + b) (List.length l)).
    + f_equal. lia.
    + rewrite (firstn_all2 (n := b)) by (rewrite length_skipn; lia).
      apply firstn_all2. rewrite length_skipn. lia.
  - rewrite (skipn_all2 (n := n)) by lia.
    rewrite skipn_all2 by lia. now rewrite !firstn_nil.
Qed.

Lemma firstn_incl (n : nat) (l : list A) : incl (firstn n l) l.
Proof.
  revert l. induction n; intros [|y l]; simpl; intros z H; try contradiction.
  destruct H as [E | H]; [now left | right; now apply IHn].
Qed.

Lemma skipn_incl (n : nat) (l : list A) : incl (skipn n l) l.
Proof.
  revert l. induction n; intros [|y l]; simpl; try apply incl_refl.
  intros z H. right. now apply IHn.
Qed.

Lemma py_slice_incl (l : list A) (a b : Z) : incl (py_slice l a b) l.
Proof.
  unfold py_slice. eapply incl_tran; [apply firstn_incl | apply skipn_incl].
Qed.

Lemma py_slice_empty (l : list A) (a : Z) : py_slice l a a = [].
Proof. unfold py_slice. now rewrite Z.sub_diag. Qed.

End Slices.

(** ** Reading a trace *)

Section TraceFacts.

Lemma triggers_app (a b : list event) : triggers (a ++ b) = triggers a ++ triggers b.
Proof. apply flat_map_app. Qed.

Lemma removal_lists_app (a b : list event) :
  removal_lists (a ++ b) = removal_lists a ++ removal_lists b.
Proof. apply flat_map_app. Qed.

Lemma pendings_app (a b : list event) : pendings (a ++ b) = pendings a ++ pendings b.
Proof. apply flat_map_app. Qed.

Lemma replay_app (s : shelf) (a b : list event) :
  replay s (a ++ b) = replay (replay s a) b.
Proof. apply fold_left_app. Qed.

Lemma disk_after_app (w : cloud) (d : option shelf) (s : shelf) (a b : list event) :
  disk_after w d s (a ++ b) = disk_after w (disk_after w d s a) (replay s a) b.
Proof.
  revert d s. induction a as [|e a IH]; intros d s; simpl; [reflexivity|]. apply IH.
Qed.

Lemma extends_refl (w : cloud) (st : proc) : extends w st st [].
Proof. unfold extends. rewrite app_nil_r. simpl. auto. Qed.

Lemma extends_trans (w : cloud) (st1 st2 st3 : proc) (e1 e2 : list event) :
  extends w st1 st2 e1 -> extends w st2 st3 e2 -> extends w st1 st3 (e1 ++ e2).
Proof.
  intros (T1 & S1 & X1 & R1) (T2 & S2 & X2 & R2). unfold extends.
  rewrite T2, T1, S2, S1, X2, X1, S1, replay_app, disk_after_app, app_assoc.
  repeat split; auto. lia.
Qed.

Lemma disk_after_trigger_events (w : cloud) (d : option shelf) (s : shelf)
      (l : list instance_id) :
  disk_after w d s (trigger_events l) = d.
Proof. induction l; simpl; auto. Qed.

(** While the library keeps the assignments in memory, the file changes only
    with a [sync()]. *)
Lemma disk_after_buffered (w : cloud) (d : option shelf) (s : shelf) (tr : list event) :
  write_through (store_backend w) = false -> ~ In EvSync tr -> disk_after w d s tr = d.
Proof.
  intros Hw. revert d s. induction tr as [|e r IH]; intros d s Hn; simpl; [reflexivity|].
  rewrite IH by (intros H; apply Hn; now right).
  destruct e; try reflexivity; [now rewrite Hw | exfalso; apply Hn; now left].
Qed.

(** When the library writes through, a file that holds the mapping goes on
    holding it. *)
Lemma disk_after_through (w : cloud) (s : shelf) (tr : list event) :
  write_through (store_backend w) = true ->
  disk_after w (Some s) s tr = Some (replay s tr).
Proof.
  intros Hw. revert s. induction tr as [|e r IH]; intros s; simpl; [reflexivity|].
  destruct e; simpl; try apply IH. rewrite Hw. apply IH.
Qed.

Lemma disk_after_exists (w : cloud) (d : option shelf) (s : shelf) (tr : list event) :
  d <> None -> disk_after w d s tr <> None.
Proof.
  revert d s. induction tr as [|e r IH]; intros d s Hd; simpl; [exact Hd|].
  apply IH. destruct e; try exact Hd; [destruct (write_through _) |]; congruence.
Qed.

(** Whether it succeeds or raises, [os.unlink] is one more event. *)
Lemma trace_unlink (w : cloud) (path : string) (st : proc) :
  trace (final (unlink w path st)) = trace st ++ [EvUnlink path].
Proof. unfold unlink. destruct (at_path _), (disk st); reflexivity. Qed.


Lemma triggers_trigger_events (l : list instance_id) : triggers (trigger_events l) = l.
Proof. induction l; simpl; [reflexivity | now f_equal]. Qed.

Lemma removal_lists_trigger_events (l : list instance_id) :
  removal_lists (trigger_events l) = [].
Proof. induction l; simpl; auto. Qed.

Lemma pendings_trigger_events (l : list instance_id) : pendings (trigger_events l) = [].
Proof. induction l; simpl; auto. Qed.

Lemma replay_trigger_events (s : shelf) (l : list instance_id) :
  replay s (trigger_events l) = s.
Proof. induction l; simpl; auto. Qed.

Lemma monitor_event_quiet (ids : list instance_id) (ext : list event) :
  Forall (monitor_event ids) ext ->
  triggers ext = [] /\ removal_lists ext = [] /\ pendings ext = [].
Proof.
  induction 1 as [|e r He _ (IH1 & IH2 & IH3)]; simpl; [auto|].
  rewrite IH1, IH2, IH3.
  destruct e as [[] []| | | | | | | |]; simpl in He; try contradiction; auto.
Qed.

Lemma monitor_event_incl (ids ids' : list instance_id) (e : event) :
  incl ids ids' -> monitor_event ids e -> monitor_event ids' e.
Proof.
  intros Hi. destruct e as [[] []| | | | | | | |]; simpl; auto.
  intros [H1 H2]; auto.
Qed.

Lemma monitor_event_loop (K : list instance_id) (e : event) :
  monitor_event K e -> loop_event K e.
Proof. destruct e as [[] []| | | | | | | |]; simpl; tauto. Qed.

Lemma loop_event_incl (K K' : list instance_id) (e : event) :
  incl K K' -> loop_event K e -> loop_event K' e.
Proof.
  intros Hi. destruct e as [[] []| | | | | | | |]; simpl; auto.
  intros [H1 H2]; auto.
Qed.

Lemma loop_event_trigger_events (K l : list instance_id) :
  incl l K -> Forall (loop_event K) (trigger_events l).
Proof.
  induction l as [|i l IH]; simpl; intros Hi; [constructor|].
  constructor; [exact I|]. constructor.
  - simpl. apply Hi. now left.
  - apply IH. intros x Hx. apply Hi. now right.
Qed.

(** The loop never adds a key and never stores anything but [terminated]. *)
Lemma keys_replay (K : list instance_id) (s : shelf) (ext : list event) :
  Forall (loop_event K) ext -> incl K (keys s) -> keys (replay s ext) = keys s.
Proof.
  intros H. revert s. induction H as [|e r He _ IH]; intros s Hi; simpl; [reflexivity|].
  assert (E : keys (apply_event s e) = keys s).
  { destruct e; simpl; auto. destruct He as [Hk _].
    apply keys_setitem_in. now apply Hi. }
  rewrite IH; rewrite E; auto.
Qed.

Lemma getitem_replay_terminated (K : list instance_id) (s : shelf) (ext : list event) k :
  Forall (loop_event K) ext ->
  getitem s k = Some terminated -> getitem (replay s ext) k = Some terminated.
Proof.
  intros H. revert s. induction H as [|e r He _ IH]; intros s Hs; simpl; [exact Hs|].
  apply IH. destruct e; simpl; auto. destruct He as [_ ->].
  destruct (string_dec k0 k) as [-> | N].
  - apply getitem_setitem_same.
  - now rewrite getitem_setitem_other.
Qed.

Lemma getitem_replay_stored (K : list instance_id) (s : shelf) (ext : list event) k :
  Forall (loop_event K) ext ->
  In (EvSetItem k terminated) ext -> getitem (replay s ext) k = Some terminated.
Proof.
  intros H. revert s. induction H as [|e r He Hr IH]; intros s Hin; simpl; [destruct Hin|].
  destruct Hin as [-> | Hin]; [|now apply IH].
  simpl. eapply getitem_replay_terminated; [exact Hr|]. apply getitem_setitem_same.
Qed.

End TraceFacts.

(** ** The dict [monitored] *)

Section Dict.

Lemma existsb_eqb_in (i : instance_id) (d : list instance_id) :
  existsb (String.eqb i) d = true <-> In i d.
Proof.
  rewrite existsb_exists. split.
  - intros (x & Hx & E). apply String.eqb_eq in E. now subst.
  - intros H. exists i. split; [exact H | apply String.eqb_refl].
Qed.

Lemma in_dict_add (d : list instance_id) i x :
  In x (dict_add d i) <-> In x d \/ x = i.
Proof.
  unfold dict_add. destruct (existsb (String.eqb i) d) eqn:E.
  - apply existsb_eqb_in in E. split; [tauto|]. intros [H | ->]; assumption.
  - rewrite in_app_iff. simpl. intuition.
Qed.

Lemma NoDup_dict_add (d : list instance_id) i : NoDup d -> NoDup (dict_add d i).
Proof.
  intros Hd. unfold dict_add. destruct (existsb (String.eqb i) d) eqn:E; [exact Hd|].
  apply NoDup_app; [exact Hd | repeat constructor; simpl; tauto |].
  intros x Hx [<- | []].
  apply existsb_eqb_in in Hx. congruence.
Qed.

Lemma in_fold_dict_add (l d : list instance_id) x :
  In x (fold_left dict_add l d) <-> In x d \/ In x l.
Proof.
  revert d. induction l as [|i l IH]; intros d; simpl; [tauto|].
  rewrite IH, in_dict_add. intuition.
Qed.

Lemma NoDup_fold_dict_add (l d : list instance_id) :
  NoDup d -> NoDup (fold_left dict_add l d).
Proof.
  revert d. induction l as [|i l IH]; intros d Hd; simpl; [exact Hd|].
  apply IH. now apply NoDup_dict_add.
Qed.

Lemma dict_del_incl (d : list instance_id) i : incl (dict_del d i) d.
Proof.
  induction d as [|j r IH]; simpl; [apply incl_refl|].
  destruct (String.eqb j i).
  - apply incl_tl, incl_refl.
  - intros x [E | H]; [now left | right; now apply IH].
Qed.

Lemma in_dict_del_other (d : list instance_id) i x :
  In x d -> x <> i -> In x (dict_del d i).
Proof.
  induction d as [|j r IH]; simpl; [tauto|].
  intros H N. destruct (String.eqb_spec j i).
  - destruct H as [E | H]; [congruence | exact H].
  - destruct H as [E | H]; [now left | right; now apply IH].
Qed.

Lemma NoDup_dict_del (d : list instance_id) i : NoDup d -> NoDup (dict_del d i).
Proof.
  induction 1 as [|j r Hj Hr IH]; simpl; [constructor|].
  destruct (String.eqb j i); [exact Hr|].
  constructor; [|exact IH]. intros H. apply Hj. eapply dict_del_incl, H.
Qed.

Lemma not_in_dict_del (d : list instance_id) i : NoDup d -> ~ In i (dict_del d i).
Proof.
  induction 1 as [|j r Hj Hr IH]; simpl; [tauto|].
  destruct (String.eqb_spec j i) as [E | N]; [now subst|].
  intros [E | H]; [contradiction | now apply IH].
Qed.

Lemma fold_dict_del_incl (l d : list instance_id) : incl (fold_left dict_del l d) d.
Proof.
  revert d. induction l as [|i l IH]; intros d; simpl; [apply incl_refl|].
  eapply incl_tran; [apply IH | apply dict_del_incl].
Qed.

Lemma NoDup_fold_dict_del (l d : list instance_id) :
  NoDup d -> NoDup (fold_left dict_del l d).
Proof.
  revert d. induction l as [|i l IH]; intros d Hd; simpl; [exact Hd|].
  apply IH. now apply NoDup_dict_del.
Qed.

Lemma fold_dict_del_removes (l d : list instance_id) x :
  NoDup d -> In x l -> ~ In x (fold_left dict_del l d).
Proof.
  revert d. induction l as [|i l IH]; intros d Hd; simpl; [tauto|].
  intros [-> | H].
  - intros Hx. apply fold_dict_del_incl in Hx. revert Hx. now apply not_in_dict_del.
  - apply IH; [now apply NoDup_dict_del | exact H].
Qed.

Lemma fold_dict_del_keeps (l d : list instance_id) x :
  In x d -> ~ In x l -> In x (fold_left dict_del l d).
Proof.
  revert d. induction l as [|i l IH]; intros d Hd Hn; simpl; [exact Hd|].
  apply IH; [|simpl in Hn; tauto].
  apply in_dict_del_other; [exact Hd|]. simpl in Hn. intros ->. tauto.
Qed.

End Dict.

(** ** Polling *)

Section Polling.

Variable w : cloud.

(** One pass over the monitored instances does exactly [poll_events] and
    drops from [monitored] those it saw terminated. *)
Lemma poll_run (ks monitored : list instance_id) (st : proc) :
  poll w ks monitored st =
  Returned (fold_left dict_del (filter (seen_terminated w (rounds st)) ks) monitored)
           (mkProc (disk_after w (disk st) (state st) (poll_events w (rounds st) ks))
                   (replay (state st) (poll_events w (rounds st) ks))
                   (rounds st)
                   (trace st ++ poll_events w (rounds st) ks)).
Proof.
  revert monitored st. induction ks as [|i ks IH]; intros monitored st.
  - simpl. unfold ret. rewrite app_nil_r. now destruct st.
  - simpl. unfold bind at 1. unfold reload at 1. unfold seen_terminated at 1.
    destruct (String.eqb (instance_state_name w (rounds st) i) "terminated") eqn:E.
    + unfold bind at 1. unfold state_setitem at 1. rewrite IH. simpl.
      rewrite <- !app_assoc. reflexivity.
    + rewrite IH. simpl. rewrite <- !app_assoc. reflexivity.
Qed.

Lemma poll_events_monitor (t : nat) (ks : list instance_id) :
  Forall (monitor_event ks) (poll_events w t ks).
Proof.
  assert (G : forall l, incl l ks -> Forall (monitor_event ks) (poll_events w t l)).
  { induction l as [|i l IH]; intros Hi; simpl; [constructor|].
    assert (Hin : In i ks) by (apply Hi; now left).
    assert (Hl : incl l ks) by (intros x Hx; apply Hi; now right).
    constructor; [exact Hin|].
    destruct (String.eqb _ _); simpl; [constructor; [now split|] |]; now apply IH. }
  apply G, incl_refl.
Qed.

Lemma poll_events_seen (t : nat) (ks : list instance_id) i :
  In i (filter (seen_terminated w t) ks) ->
  In (EvReload i "terminated") (poll_events w t ks) /\
  In (EvSetItem i terminated) (poll_events w t ks).
Proof.
  induction ks as [|j ks IH]; simpl; [tauto|].
  unfold seen_terminated at 1.
  destruct (String.eqb_spec (instance_state_name w t j) "terminated") as [E | N].
  - simpl. intros [-> | H].
    + rewrite E. split; [now left | right; now left].
    + destruct (IH H) as [H1 H2]. split; right; right; assumption.
  - intros H. destruct (IH H) as [H1 H2]. split; right; simpl; assumption.
Qed.

Lemma monitor_loop_step (fuel : nat) (i : instance_id) (r : list instance_id) :
  monitor_loop w (S fuel) (i :: r) =
  (sleep 15 ;;
   log INFO MsgDots ;;
   monitored' <- poll w (i :: r) (i :: r) ;;
   monitor_loop w fuel monitored').
Proof. reflexivity. Qed.

Lemma monitor_loop_round (fuel : nat) (monitored : list instance_id) (st : proc) :
  monitored <> [] ->
  monitor_loop w (S fuel) monitored st =
  monitor_loop w fuel (still_monitored w monitored st) (after_round w monitored st).
Proof.
  destruct monitored as [|i r]; [congruence | intros _].
  rewrite monitor_loop_step. cbv [bind sleep log emit]. rewrite poll_run.
  unfold still_monitored, after_round. cbn [rounds state disk trace].
  rewrite <- !app_assoc. reflexivity.
Qed.

Lemma after_round_extends (monitored : list instance_id) (st : proc) :
  extends w st (after_round w monitored st)
          ([EvSleep 15; EvLog INFO MsgDots] ++ poll_events w (S (rounds st)) monitored).
Proof. unfold extends, after_round. simpl. repeat split; auto. Qed.

(** [monitor_loop] either returns or is still polling; it only polls; and
    when it returns, every monitored instance was seen terminated and
    stored as such. *)
Lemma monitor_loop_spec (fuel : nat) (monitored : list instance_id) (st : proc) :
  exists (done : bool) (st' : proc) (ext : list event),
    monitor_loop w fuel monitored st = (if done then Returned tt st' else Running st') /\
    extends w st st' ext /\
    Forall (monitor_event monitored) ext /\
    (done = true ->
     forall i, In i monitored ->
               In (EvReload i "terminated") ext /\ In (EvSetItem i terminated) ext).
Proof.
  revert monitored st. induction fuel as [|fuel IH]; intros monitored st.
  - destruct monitored as [|i r].
    + exists true, st, []. simpl.
      split; [reflexivity|]. split; [apply extends_refl|]. split; [constructor|].
      intros _ i [].
    + exists false, st, []. simpl.
      split; [reflexivity|]. split; [apply extends_refl|]. split; [constructor|].
      discriminate.
  - destruct monitored as [|i0 r].
    + exists true, st, []. simpl.
      split; [reflexivity|]. split; [apply extends_refl|]. split; [constructor|].
      intros _ i [].
    + remember (i0 :: r) as mon eqn:Emon.
      assert (Hne : mon <> []) by (subst; discriminate).
      destruct (IH (still_monitored w mon st) (after_round w mon st))
        as (done & st' & ext & Hrun & Hext & Hev & Hdone).
      exists done, st',
        (([EvSleep 15; EvLog INFO MsgDots] ++ poll_events w (S (rounds st)) mon) ++ ext).
      split; [now rewrite monitor_loop_round|]. split; [|split].
      * eapply extends_trans; [apply after_round_extends | exact Hext].
      * apply Forall_app. split.
        -- constructor; [exact I|]. constructor; [exact I|]. apply poll_events_monitor.
        -- eapply Forall_impl; [|exact Hev].
           intros e. apply monitor_event_incl, fold_dict_del_incl.
      * intros Hd i Hi.
        destruct (in_dec string_dec i (filter (seen_terminated w (S (rounds st))) mon))
          as [Hs | Hns].
        -- destruct (poll_events_seen _ _ _ Hs) as [H1 H2].
           split; rewrite !in_app_iff; auto.
        -- assert (Hi' : In i (still_monitored w mon st)) by (now apply fold_dict_del_keeps).
           destruct (Hdone Hd i Hi') as [H1 H2].
           split; rewrite !in_app_iff; auto.
Qed.

(** Once every monitored instance reports [terminated] from round [T] on,
    the polling loop returns, given fuel for the rounds up to [T]. *)
Lemma monitor_loop_returns (T fuel : nat) (monitored : list instance_id) (st : proc) :
  NoDup monitored ->
  (forall i t, In i monitored -> (T <= t)%nat -> seen_terminated w t i = true) ->
  (T - rounds st < fuel)%nat ->
  exists st', monitor_loop w fuel monitored st = Returned tt st'.
Proof.
  revert monitored st. induction fuel as [|fuel IH]; intros monitored st Hnd Hterm Hfuel.
  - lia.
  - destruct monitored as [|i0 r]; [now exists st|].
    remember (i0 :: r) as mon eqn:Emon.
    assert (Hne : mon <> []) by (subst; discriminate).
    rewrite monitor_loop_round by exact Hne.
    destruct (Nat.le_gt_cases T (S (rounds st))) as [Hle | Hgt].
    + assert (E : still_monitored w mon st = []).
      { unfold still_monitored.
        assert (F : filter (seen_terminated w (S (rounds st))) mon = mon).
        { apply forallb_filter_id. apply forallb_forall. intros x Hx. now apply Hterm. }
        rewrite F.
        destruct (fold_left dict_del mon mon) as [|x l] eqn:Ex; [reflexivity|].
        exfalso. assert (Hx : In x (fold_left dict_del mon mon)) by (rewrite Ex; now left).
        pose proof (fold_dict_del_incl _ _ _ Hx) as Hm.
        exact (@fold_dict_del_removes mon mon x Hnd Hm Hx). }
      rewrite E. exists (after_round w mon st). now destruct fuel.
    + apply IH.
      * now apply NoDup_fold_dict_del.
      * intros i t Hi. apply Hterm. eapply fold_dict_del_incl, Hi.
      * simpl. lia.
Qed.

(** *** [monitor_instance_termination] *)

Lemma monitor_instance_termination_spec (fuel : nat) (ids : list instance_id) (st : proc) :
  exists (done : bool) (st' : proc) (ext : list event),
    monitor_instance_termination w fuel ids st =
      (if done then Returned tt st' else Running st') /\
    extends w st st' ext /\
    Forall (monitor_event ids) ext /\
    (done = true ->
     forall i, In i ids ->
               In (EvReload i "terminated") ext /\ In (EvSetItem i terminated) ext).
Proof.
  set (mon := fold_left dict_add ids []).
  set (st1 := mkProc (disk st) (state st) (rounds st)
                     (trace st ++ [EvLog INFO (MsgWaiting mon)])).
  assert (Hmon : forall i, In i mon <-> In i ids).
  { intros i. unfold mon. rewrite in_fold_dict_add. simpl. tauto. }
  destruct (monitor_loop_spec fuel mon st1) as (done & st' & ext & Hrun & Hext & Hev & Hdone).
  assert (Hev' : Forall (monitor_event ids) ext).
  { eapply Forall_impl; [|exact Hev]. intros e. apply monitor_event_incl.
    intros i. apply Hmon. }
  assert (E1 : extends w st st1 [EvLog INFO (MsgWaiting mon)]).
  { unfold extends, st1. simpl. auto. }
  destruct done.
  - exists true, (mkProc (disk st') (state st') (rounds st')
                        (trace st' ++ [EvLog INFO MsgDone])),
      ([EvLog INFO (MsgWaiting mon)] ++ ext ++ [EvLog INFO MsgDone]).
    split; [|split; [|split]].
    + unfold monitor_instance_termination. fold mon.
      cbv [bind log emit]. fold st1. now rewrite Hrun.
    + eapply extends_trans; [exact E1|]. eapply extends_trans; [exact Hext|].
      unfold extends. simpl. auto.
    + constructor; [exact I|]. apply Forall_app. split; [exact Hev'|].
      constructor; [exact I | constructor].
    + intros _ i Hi. apply Hmon in Hi. destruct (Hdone eq_refl i Hi) as [H1 H2].
      split; rewrite !in_app_iff; auto.
  - exists false, st', ([EvLog INFO (MsgWaiting mon)] ++ ext).
    split; [|split; [|split]].
    + unfold monitor_instance_termination. fold mon.
      cbv [bind log emit]. fold st1. now rewrite Hrun.
    + eapply extends_trans; [exact E1 | exact Hext].
    + constructor; [exact I | exact Hev'].
    + discriminate.
Qed.

Lemma monitor_instance_termination_returns (T fuel : nat) (ids : list instance_id)
      (st : proc) :
  (forall i t, In i ids -> (T <= t)%nat -> seen_terminated w t i = true) ->
  (T - rounds st < fuel)%nat ->
  exists st', monitor_instance_termination w fuel ids st = Returned tt st'.
Proof.
  intros Hterm Hfuel.
  set (mon := fold_left dict_add ids []).
  set (st1 := mkProc (disk st) (state st) (rounds st)
                     (trace st ++ [EvLog INFO (MsgWaiting mon)])).
  destruct (@monitor_loop_returns T fuel mon st1) as (st' & Hrun).
  - apply NoDup_fold_dict_add. constructor.
  - intros i t Hi. apply Hterm. unfold mon in Hi. rewrite in_fold_dict_add in Hi.
    simpl in Hi. tauto.
  - exact Hfuel.
  - eexists. unfold monitor_instance_termination. fold mon.
    cbv [bind log emit]. fold st1. rewrite Hrun. reflexivity.
Qed.

(** *** Marking a batch unhealthy *)

Lemma for_each_trigger (remove : list instance_id) (st : proc) :
  for_each remove (trigger_instance_removal) st =
  Returned tt (mkProc (disk st) (state st) (rounds st)
                      (trace st ++ trigger_events remove)).
Proof.
  revert st. induction remove as [|i r IH]; intros st.
  - simpl. unfold ret. rewrite app_nil_r. now destruct st.
  - simpl. unfold bind at 1. unfold trigger_instance_removal at 1.
    cbv [bind log emit]. rewrite IH. cbn [rounds state disk trace].
    rewrite <- !app_assoc. reflexivity.
Qed.

End Polling.

(** ** The batch loop *)

Section BatchLoop.

Variable w : cloud.
Variables B N : Z.

Lemma execute_loop_stop (fuel : nat) (idx : Z) (st : proc) :
  N <= idx -> execute_loop w fuel B N idx st = Returned tt st.
Proof.
  intros H. destruct fuel; simpl; destruct (Z.ltb_spec idx N); try lia; reflexivity.
Qed.

Lemma execute_loop_step (fuel : nat) (idx : Z) (st : proc) :
  idx < N ->
  execute_loop w (S fuel) B N idx st =
  (monitor_instance_termination w fuel
     (py_slice (key_list (store_backend w) (state st)) idx (idx + B)) ;;
   execute_loop w fuel B N (idx + B))
    (mkProc (disk st) (state st) (rounds st)
            (trace st ++ iteration_head (key_list (store_backend w) (state st)) B N idx)).
Proof.
  intros H. cbn [execute_loop]. destruct (Z.ltb_spec idx N); [|lia].
  cbv [bind log emit state_keys]. cbn [rounds state disk trace].
  rewrite for_each_trigger. cbn [rounds state disk trace].
  unfold iteration_head. rewrite <- !app_assoc. reflexivity.
Qed.

Lemma iteration_head_events (K : list instance_id) (idx : Z) :
  Forall (loop_event K) (iteration_head K B N idx).
Proof.
  unfold iteration_head. constructor; [exact I|]. constructor; [exact I|].
  apply loop_event_trigger_events, py_slice_incl.
Qed.

Lemma monitor_events_loop (K : list instance_id) (idx : Z) (ext : list event) :
  Forall (monitor_event (py_slice K idx (idx + B))) ext -> Forall (loop_event K) ext.
Proof.
  apply Forall_impl. intros e He. apply monitor_event_loop.
  eapply monitor_event_incl; [apply py_slice_incl | exact He].
Qed.

Lemma batched_events (K : list instance_id) c idx ext :
  batched K B N c idx ext -> Forall (loop_event K) ext.
Proof.
  induction 1 as [| | idx mext Hlt Hev | c idx mext rest Hlt Hev Hseen Hb IH].
  - constructor.
  - constructor.
  - apply Forall_app. split; [apply iteration_head_events|].
    eapply monitor_events_loop, Hev.
  - apply Forall_app. split; [apply iteration_head_events|].
    apply Forall_app. split; [eapply monitor_events_loop, Hev | exact IH].
Qed.

(** Whatever the fuel, the batch size and the cursor, the loop returns or is
    still running, and what it did has the shape [batched]. *)
Lemma execute_loop_batched (fuel : nat) (idx : Z) (st : proc) :
  exists (c : bool) (st' : proc) (ext : list event),
    execute_loop w fuel B N idx st = (if c then Returned tt st' else Running st') /\
    extends w st st' ext /\
    batched (key_list (store_backend w) (state st)) B N c idx ext.
Proof.
  revert idx st. induction fuel as [|fuel IH]; intros idx st.
  - destruct (Z.lt_ge_cases idx N) as [Hlt | Hge].
    + exists false, st, []. split; [|split; [apply extends_refl | now constructor]].
      simpl. destruct (Z.ltb_spec idx N); [reflexivity | lia].
    + exists true, st, []. split; [|split; [apply extends_refl | now constructor]].
      now apply execute_loop_stop.
  - destruct (Z.lt_ge_cases idx N) as [Hlt | Hge].
    2:{ exists true, st, []. split; [|split; [apply extends_refl | now constructor]].
        now apply execute_loop_stop. }
    set (K := key_list (store_backend w) (state st)).
    set (st1 := mkProc (disk st) (state st) (rounds st)
                       (trace st ++ iteration_head K B N idx)).
    assert (E1 : extends w st st1 (iteration_head K B N idx)).
    { unfold extends, st1, iteration_head. simpl.
      rewrite replay_trigger_events, disk_after_trigger_events. auto. }
    destruct (monitor_instance_termination_spec w fuel (py_slice K idx (idx + B)) st1)
      as (done & st2 & mext & Hrun & Hext & Hev & Hdone).
    destruct done.
    + destruct (IH (idx + B) st2) as (c & st3 & rest & Hrun3 & Hext3 & Hb3).
      assert (EK : key_list (store_backend w) (state st2) = K).
      { apply key_list_same_keys.
        destruct Hext as (_ & S2 & _). rewrite S2. unfold st1. simpl.
        eapply keys_replay; [eapply monitor_events_loop, Hev | apply key_list_incl]. }
      exists c, st3, (iteration_head K B N idx ++ mext ++ rest).
      split; [|split].
      * rewrite execute_loop_step by exact Hlt. fold K. fold st1.
        unfold bind. rewrite Hrun. exact Hrun3.
      * eapply extends_trans; [exact E1|]. eapply extends_trans; eassumption.
      * rewrite EK in Hb3. apply batched_next; auto.
    + exists false, st2, (iteration_head K B N idx ++ mext).
      split; [|split].
      * rewrite execute_loop_step by exact Hlt. fold K. fold st1.
        unfold bind. now rewrite Hrun.
      * eapply extends_trans; eassumption.
      * now apply batched_polling.
Qed.

(** The triggers are the removal lists, one after the other. *)
Lemma batched_triggers (K : list instance_id) c idx ext :
  batched K B N c idx ext -> triggers ext = List.concat (removal_lists ext).
Proof.
  induction 1 as [| | idx mext Hlt Hev | c idx mext rest Hlt Hev Hseen Hb IH];
    try reflexivity.
  - destruct (monitor_event_quiet Hev) as (T & R & _).
    unfold iteration_head.
    rewrite !triggers_app, !removal_lists_app, T, R,
      triggers_trigger_events, removal_lists_trigger_events.
    simpl. now rewrite !app_nil_r.
  - destruct (monitor_event_quiet Hev) as (T & R & _).
    unfold iteration_head.
    rewrite !triggers_app, !removal_lists_app, T, R, IH,
      triggers_trigger_events, removal_lists_trigger_events.
    simpl. reflexivity.
Qed.

End BatchLoop.

(** ** Batches: the slices taken with a positive batch size *)

Section Batches.

Variable K : list instance_id.
Variable b : nat.
Hypothesis b_pos : (0 < b)%nat.

Lemma batch_no_nat (k : nat) : batch_no K (Z.of_nat b) k = firstn b (skipn (k * b) K).
Proof. unfold batch_no. rewrite <- Nat2Z.inj_mul. apply py_slice_nat. Qed.

Lemma in_batch_no (k : nat) (x : instance_id) :
  In x (batch_no K (Z.of_nat b) k) ->
  exists n, (k * b <= n < k * b + b)%nat /\ nth_error K n = Some x.
Proof.
  rewrite batch_no_nat. intros H. apply In_nth_error in H. destruct H as (m & Hm).
  rewrite nth_error_firstn in Hm. destruct (Nat.ltb_spec m b); [|discriminate].
  rewrite nth_error_skipn in Hm. exists (k * b + m)%nat. split; [lia | exact Hm].
Qed.

(** With distinct keys, an instance belongs to one batch only. *)
Lemma batch_no_disjoint (k1 k2 : nat) (x : instance_id) :
  NoDup K ->
  In x (batch_no K (Z.of_nat b) k1) -> In x (batch_no K (Z.of_nat b) k2) -> k1 = k2.
Proof.
  intros Hnd H1 H2.
  apply in_batch_no in H1. destruct H1 as (n1 & R1 & E1).
  apply in_batch_no in H2. destruct H2 as (n2 & R2 & E2).
  assert (n1 = n2).
  { rewrite NoDup_nth_error in Hnd. apply Hnd; [|congruence].
    apply nth_error_Some. congruence. }
  subst n2. nia.
Qed.

Lemma concat_batches (n : nat) :
  List.concat (map (batch_no K (Z.of_nat b)) (seq 0 n)) = firstn (n * b) K.
Proof.
  induction n as [|n IH]; [reflexivity|].
  rewrite seq_S, map_app, concat_app, IH. simpl. rewrite app_nil_r, batch_no_nat.
  rewrite firstn_skipn_comm.
  replace (n * b + b)%nat with (b + n * b)%nat by lia.
  rewrite <- (firstn_skipn (n * b) (firstn (b + n * b) K)) at 2.
  f_equal. rewrite firstn_firstn. f_equal. lia.
Qed.

Lemma length_batch_no (k : nat) :
  List.length (batch_no K (Z.of_nat b) k) = Nat.min b (List.length K - k * b).
Proof. now rewrite batch_no_nat, length_firstn, length_skipn. Qed.

(** The batches of a list of [len] keys when the loop stops after [n]
    iterations: [n] is the least number with [len <= n * b]. *)
Variable n : nat.
Hypothesis n_covers : (List.length K <= n * b)%nat.
Hypothesis n_least : (0 < n)%nat -> ((n - 1) * b < List.length K)%nat.

Lemma batches_count :
  Z.of_nat n = (Z.of_nat (List.length K) + Z.of_nat b - 1) / Z.of_nat b.
Proof.
  apply Z.div_unique with
    (r := Z.of_nat (List.length K) + Z.of_nat b - 1 - Z.of_nat b * Z.of_nat n).
  - left. destruct n as [|n']; [nia|].
    specialize (n_least (Nat.lt_0_succ n')). nia.
  - lia.
Qed.

Lemma batches_concat : List.concat (batches K b n) = K.
Proof. unfold batches. rewrite concat_batches. now apply firstn_all2. Qed.

Lemma batches_full (k : nat) :
  (S k < n)%nat -> List.length (nth k (batches K b n) []) = b.
Proof.
  intros Hk. unfold batches.
  rewrite (nth_indep _ [] (batch_no K (Z.of_nat b) 0))
    by (rewrite length_map, length_seq; lia).
  rewrite map_nth, seq_nth by lia. simpl. rewrite length_batch_no.
  specialize (n_least ltac:(lia)). nia.
Qed.

Lemma batches_last :
  (0 < n)%nat ->
  Z.of_nat (List.length (last (batches K b n) [])) =
  if Z.of_nat (List.length K) mod Z.of_nat b =? 0
  then Z.of_nat b
  else Z.of_nat (List.length K) mod Z.of_nat b.
Proof.
  intros Hn. unfold batches. destruct n as [|n']; [lia|].
  rewrite seq_S, map_app. simpl. rewrite last_last, length_batch_no.
  specialize (n_least Hn). replace (S n' - 1)%nat with n' in n_least by lia.
  assert (Hb : 0 < Z.of_nat b) by lia.
  pose proof (Z.mod_pos_bound (Z.of_nat (List.length K)) _ Hb) as Hm.
  pose proof (Z.div_mod (Z.of_nat (List.length K)) (Z.of_nat b) ltac:(lia)) as Hd.
  set (len := Z.of_nat (List.length K)) in *.
  set (q := len / Z.of_nat b) in *. set (r := len mod Z.of_nat b) in *.
  assert (Hlen : len = Z.of_nat (List.length K)) by reflexivity.
  destruct (Z.eqb_spec r 0) as [E | E].
  - assert (q = Z.of_nat (S n')) by nia. nia.
  - assert (q = Z.of_nat n') by nia. nia.
Qed.

End Batches.

(** ** What the shape of the loop gives for a positive batch size *)

Section Ordering.

Variable K : list instance_id.
Variable b : nat.
Hypothesis b_pos : (0 < b)%nat.
Variable N : Z.

(** A loop that ran to its end from iteration [k0] made the iterations
    [k0], [k0 + 1], ... up to the first whose cursor reaches [N]. *)
Lemma batched_complete (c : bool) (idx : Z) (ext : list event) :
  batched K (Z.of_nat b) N c idx ext ->
  forall k0, c = true -> idx = Z.of_nat k0 * Z.of_nat b ->
  exists n,
    removal_lists ext = map (batch_no K (Z.of_nat b)) (seq k0 n) /\
    pendings ext = map (fun k => N - Z.of_nat k * Z.of_nat b) (seq k0 n) /\
    N <= Z.of_nat (k0 + n) * Z.of_nat b /\
    ((0 < n)%nat -> Z.of_nat (k0 + n - 1) * Z.of_nat b < N).
Proof.
  induction 1 as [idx Hge | | | c idx mext rest Hlt Hev Hseen Hb IH];
    intros k0 Hc Hidx; try discriminate.
  - exists 0%nat. simpl. repeat split; [|lia]. rewrite Nat.add_0_r. lia.
  - destruct (IH (S k0) Hc) as (n & Hr & Hp & Hcov & Hleast); [lia|].
    exists (S n). destruct (monitor_event_quiet Hev) as (_ & R & P).
    unfold iteration_head.
    rewrite !removal_lists_app, !pendings_app, R, P, Hr, Hp,
      removal_lists_trigger_events, pendings_trigger_events.
    simpl. subst idx. unfold batch_no.
    split; [reflexivity|]. split; [reflexivity|].
    split; [replace (k0 + S n)%nat with (S k0 + n)%nat by lia; exact Hcov|].
    intros _. destruct n as [|n'].
    + replace (k0 + 1 - 1)%nat with k0 by lia. exact Hlt.
    + replace (k0 + S (S n') - 1)%nat with (S k0 + S n' - 1)%nat by lia.
      apply Hleast. lia.
Qed.

Lemma split_at_event (a l pre post : list event) (e : event) :
  a ++ l = pre ++ e :: post ->
  (exists l', a = pre ++ e :: l' /\ post = l' ++ l) \/
  (exists pre', pre = a ++ pre' /\ l = pre' ++ e :: post).
Proof.
  intros H. apply app_eq_app in H. destruct H as (m & [[H1 H2] | [H1 H2]]).
  - destruct m as [|x m].
    + right. exists []. rewrite app_nil_r in H1. simpl in H2. subst.
      split; [now rewrite app_nil_r | reflexivity].
    + left. simpl in H2. injection H2 as <- ->. now exists m.
  - right. now exists m.
Qed.

Lemma no_trigger_in_polling (ids : list instance_id) (ext : list event) j :
  Forall (monitor_event ids) ext -> ~ In (EvSetInstanceHealth j) ext.
Proof.
  intros H Hin. rewrite Forall_forall in H. exact (H _ Hin).
Qed.

Lemma trigger_in_head (B idx : Z) j :
  In (EvSetInstanceHealth j) (iteration_head K B N idx) -> In j (py_slice K idx (idx + B)).
Proof.
  unfold iteration_head. simpl. intros [H | [H | H]]; try discriminate.
  induction (py_slice K idx (idx + B)) as [|x l IH]; simpl in *; [tauto|].
  destruct H as [H | [H | H]]; try discriminate; [injection H; auto | auto].
Qed.

(** A removal trigger met in the trace of the loop started at iteration [k0]
    belongs to some iteration [k'], and every instance of the iterations from
    [k0] to [k' - 1] was seen terminated before it. *)
Lemma batched_ordered (c : bool) (idx : Z) (ext : list event) :
  batched K (Z.of_nat b) N c idx ext ->
  forall k0, idx = Z.of_nat k0 * Z.of_nat b ->
  forall pre j post, ext = pre ++ EvSetInstanceHealth j :: post ->
  exists k', (k0 <= k')%nat /\ In j (batch_no K (Z.of_nat b) k') /\
    forall k i, (k0 <= k < k')%nat -> In i (batch_no K (Z.of_nat b) k) ->
                In (EvReload i "terminated") pre.
Proof.
  induction 1 as [| | idx mext Hlt Hev | c idx mext rest Hlt Hev Hseen Hb IH];
    intros k0 Hidx pre j post Hsplit.
  - now destruct pre.
  - now destruct pre.
  - apply split_at_event in Hsplit. destruct Hsplit as [(l' & Hh & _) | (pre' & _ & Hm)].
    + exists k0. split; [lia|]. split; [|intros; lia].
      unfold batch_no. rewrite <- Hidx. apply trigger_in_head.
      rewrite Hh. apply in_or_app. right. now left.
    + exfalso. eapply no_trigger_in_polling; [exact Hev|].
      rewrite Hm. apply in_or_app. right. now left.
  - apply split_at_event in Hsplit. destruct Hsplit as [(l' & Hh & _) | (pre' & Hpre & Hm)].
    + exists k0. split; [lia|]. split; [|intros; lia].
      unfold batch_no. rewrite <- Hidx. apply trigger_in_head.
      rewrite Hh. apply in_or_app. right. now left.
    + apply split_at_event in Hm. destruct Hm as [(l' & Hh & _) | (pre'' & Hpre' & Hr)].
      * exfalso. eapply no_trigger_in_polling; [exact Hev|].
        rewrite Hh. apply in_or_app. right. now left.
      * destruct (IH (S k0) ltac:(lia) _ _ _ Hr) as (k' & Hk' & Hj & Hobs).
        exists k'. split; [lia|]. split; [exact Hj|].
        intros k i Hk Hi. subst pre pre'. rewrite !in_app_iff.
        destruct (Nat.eq_dec k k0) as [-> | Hne].
        -- right. left. apply Hseen. unfold batch_no in Hi. now rewrite <- Hidx in Hi.
        -- right. right. eapply Hobs; [|exact Hi]. lia.
Qed.

End Ordering.

(** ** The snapshot *)

Section Run.

Variable w : cloud.

Lemma for_each_adding (ids : list instance_id) (st : proc) :
  for_each ids (fun i => log INFO (MsgAdding i) ;; state_setitem w i pending_replacement) st =
  Returned tt (mkProc (disk_after w (disk st) (state st) (adding_events ids))
                      (add_pending (state st) ids) (rounds st)
                      (trace st ++ adding_events ids)).
Proof.
  revert st. induction ids as [|i r IH]; intros st.
  - simpl. unfold ret. rewrite app_nil_r. now destruct st.
  - simpl. cbv [bind log emit state_setitem]. rewrite IH.
    cbn [rounds state disk trace]. rewrite <- !app_assoc. reflexivity.
Qed.

Lemma replay_adding_events (s : shelf) (ids : list instance_id) :
  replay s (adding_events ids) = add_pending s ids.
Proof.
  revert s. induction ids as [|i r IH]; intros s; [reflexivity|].
  simpl. apply IH.
Qed.

Lemma execute_found (fuel : nat) (asg_name : string) (B : Z) (store_file : string)
      (g : asg_group) (st : proc) :
  describe_auto_scaling_groups w asg_name = [g] ->
  execute w fuel asg_name B store_file st =
  execute_loop w fuel B (Z.of_nat (List.length (add_pending (state st) (Instances g)))) 0
    (mkProc (disk_after w (Some (state st)) (state st) (adding_events (Instances g)))
            (add_pending (state st) (Instances g)) (rounds st)
            (trace st ++ snapshot_events asg_name B store_file g (state st))).
Proof.
  intros Hg. unfold execute, new_instance_state, query_asg. rewrite Hg.
  cbv [bind log emit shelve_open ret state_len]. rewrite for_each_adding.
  cbn [rounds state disk trace]. unfold snapshot_events, query_events.
  rewrite <- !app_assoc. reflexivity.
Qed.

Lemma execute_not_found (fuel : nat) (asg_name : string) (B : Z) (store_file : string)
      (st : proc) :
  describe_auto_scaling_groups w asg_name = [] ->
  execute w fuel asg_name B store_file st =
  Exited 1 (mkProc (Some (state st)) (state st) (rounds st)
                   (trace st ++ query_events asg_name B store_file
                             ++ [EvLog ERROR (MsgNotFound asg_name)])).
Proof.
  intros Hg. unfold execute, new_instance_state, query_asg. rewrite Hg.
  cbv [bind log emit shelve_open exit]. cbn [rounds state disk trace].
  unfold query_events. rewrite <- !app_assoc. reflexivity.
Qed.

Lemma execute_ambiguous (fuel : nat) (asg_name : string) (B : Z) (store_file : string)
      (g1 g2 : asg_group) (gs : list asg_group) (st : proc) :
  describe_auto_scaling_groups w asg_name = g1 :: g2 :: gs ->
  execute w fuel asg_name B store_file st =
  Raised TypeError (mkProc (Some (state st)) (state st) (rounds st)
                           (trace st ++ query_events asg_name B store_file)).
Proof.
  intros Hg. unfold execute, new_instance_state, query_asg. rewrite Hg.
  cbv [bind log emit shelve_open ret raise]. cbn [rounds state disk trace].
  unfold query_events. rewrite <- !app_assoc. reflexivity.
Qed.

Lemma keys_add_pending_incl (s : shelf) (ids : list instance_id) :
  incl (keys s) (keys (add_pending s ids)).
Proof.
  revert s. induction ids as [|i r IH]; intros s; simpl; [apply incl_refl|].
  eapply incl_tran; [apply keys_setitem_incl | apply IH].
Qed.

Lemma NoDup_keys_add_pending (s : shelf) (ids : list instance_id) :
  NoDup (keys s) -> NoDup (keys (add_pending s ids)).
Proof.
  revert s. induction ids as [|i r IH]; intros s H; simpl; [exact H|].
  apply IH. now apply NoDup_keys_setitem.
Qed.


Lemma in_keys_setitem_iff (s : shelf) (j k : instance_id) (v : replacement_state) :
  In k (keys (setitem s j v)) <-> In k (keys s) \/ k = j.
Proof.
  destruct (in_dec string_dec j (keys s)) as [Hin | Hn].
  - rewrite keys_setitem_in by exact Hin. split; [tauto|]. intros [H | ->]; assumption.
  - rewrite keys_setitem_notin by exact Hn. rewrite in_app_iff. simpl. intuition.
Qed.

Lemma in_keys_add_pending (ids : list instance_id) (s : shelf) (k : instance_id) :
  In k (keys (add_pending s ids)) <-> In k (keys s) \/ In k ids.
Proof.
  revert s. induction ids as [|j r IH]; intros s; simpl; [tauto|].
  rewrite IH, in_keys_setitem_iff. intuition.
Qed.

(** On a missing or empty store file, and for a group that lists no instance
    twice, the mapping gets the instances of the group in the order of the
    response. *)
Lemma keys_add_pending_fresh (ids : list instance_id) :
  NoDup ids -> keys (add_pending [] ids) = ids.
Proof.
  intros Hnd.
  assert (G : forall l s, NoDup (keys s ++ l) -> keys (add_pending s l) = keys s ++ l).
  { induction l as [|i r IH]; intros s H; simpl; [now rewrite app_nil_r|].
    assert (Hn : ~ In i (keys s)).
    { intros Hi. apply NoDup_remove_2 in H. apply H. apply in_or_app. now left. }
    rewrite IH; rewrite keys_setitem_notin by exact Hn; rewrite <- app_assoc; auto. }
  apply (G ids []). exact Hnd.
Qed.

Lemma no_sync_adding (ids : list instance_id) : ~ In EvSync (adding_events ids).
Proof.
  induction ids as [|i r IH]; simpl; [tauto|].
  intros [H | [H | H]]; [discriminate | discriminate | now apply IH].
Qed.

Lemma no_sync_loop (K : list instance_id) (ext : list event) :
  Forall (loop_event K) ext -> ~ In EvSync ext.
Proof. intros H Hin. rewrite Forall_forall in H. exact (H _ Hin). Qed.

(** The store file after the snapshot and the events [ext] of the batch loop,
    from a store opened on the mapping [s0]: it exists; it holds the mapping
    of the run when the library writes through, and what it held when it was
    opened when the library buffers, as nothing is flushed. *)
Lemma disk_of_run (K ids : list instance_id) (s0 : shelf) (ext : list event) :
  Forall (loop_event K) ext ->
  disk_after w (Some s0) s0 (adding_events ids ++ ext) <> None /\
  (write_through (store_backend w) = true ->
   disk_after w (Some s0) s0 (adding_events ids ++ ext) =
   Some (replay (add_pending s0 ids) ext)) /\
  (write_through (store_backend w) = false ->
   disk_after w (Some s0) s0 (adding_events ids ++ ext) = Some s0).
Proof.
  intros Hev. split; [|split].
  - apply disk_after_exists. discriminate.
  - intros Hw. rewrite disk_after_through by exact Hw.
    now rewrite replay_app, replay_adding_events.
  - intros Hw. apply disk_after_buffered; [exact Hw|].
    rewrite in_app_iff. intros [H | H].
    + exact (no_sync_adding _ H).
    + exact (no_sync_loop Hev H).
Qed.

(** A uniform bound for finitely many instances. *)
Lemma eventually_terminated_bound (ids : list instance_id) :
  eventually_terminated w ids ->
  exists T, forall i t, In i ids -> (T <= t)%nat -> seen_terminated w t i = true.
Proof.
  induction ids as [|i r IH]; intros H.
  - exists 0%nat. intros i t [].
  - destruct IH as (T1 & H1).
    { intros j Hj. apply H. now right. }
    destruct (H i (or_introl eq_refl)) as (T2 & H2).
    exists (Nat.max T1 T2). intros j t [<- | Hj] Ht.
    + unfold seen_terminated. rewrite H2 by lia. reflexivity.
    + apply H1; [exact Hj | lia].
Qed.

(** With a positive batch size the cursor reaches the total: the loop returns
    as soon as the fuel covers the remaining keys and the rounds up to [T]. *)
Lemma execute_loop_returns (T : nat) (B N : Z) (fuel : nat) (idx : Z) (st : proc) :
  0 < B ->
  (forall i t, In i (keys (state st)) -> (T <= t)%nat -> seen_terminated w t i = true) ->
  (Z.to_nat (N - idx) + T < fuel)%nat ->
  exists st', execute_loop w fuel B N idx st = Returned tt st'.
Proof.
  intros HB. revert idx st. induction fuel as [|fuel IH]; intros idx st Hterm Hfuel; [lia|].
  destruct (Z.lt_ge_cases idx N) as [Hlt | Hge].
  2:{ exists st. now apply execute_loop_stop. }
  rewrite execute_loop_step by exact Hlt.
  set (K := key_list (store_backend w) (state st)) in *.
  set (st1 := mkProc _ _ _ _).
  destruct (monitor_instance_termination_spec w fuel (py_slice K idx (idx + B)) st1)
    as (done & st2 & mext & Hrun & Hext & Hev & _).
  destruct (@monitor_instance_termination_returns w T fuel (py_slice K idx (idx + B)) st1)
    as (st2' & Hret).
  { intros i t Hi. apply Hterm. eapply key_list_incl, py_slice_incl, Hi. }
  { lia. }
  rewrite Hret in Hrun. destruct done; [|discriminate]. injection Hrun as ->.
  unfold bind. rewrite Hret. apply IH.
  - destruct Hext as (_ & S2 & _). rewrite S2. unfold st1. cbn [state].
    rewrite (@keys_replay K);
      [exact Hterm | eapply monitor_events_loop, Hev | apply key_list_incl].
  - lia.
Qed.

End Run.

(** ** A whole call of [execute] on a group that is found *)

Section Execute.

Variable w : cloud.
Variable a : args.
Variable file : option shelf.
Variable g : asg_group.
Hypothesis found : describe_auto_scaling_groups w (group a) = [g].

Lemma snapshot_events_quiet (s0 : shelf) :
  triggers (snapshot_events (group a) (batch a) (state_path a) g s0) = [] /\
  removal_lists (snapshot_events (group a) (batch a) (state_path a) g s0) = [] /\
  pendings (snapshot_events (group a) (batch a) (state_path a) g s0) = [].
Proof.
  unfold snapshot_events, query_events.
  rewrite !triggers_app, !removal_lists_app, !pendings_app. simpl.
  induction (Instances g) as [|i r (IH1 & IH2 & IH3)]; simpl; auto.
Qed.

Lemma trace_boot : trace (boot file) = [].
Proof. now destruct file. Qed.

Lemma rounds_boot : rounds (boot file) = 0%nat.
Proof. now destruct file. Qed.

(** Whatever the fuel and the batch size: the snapshot is taken, then the
    batch loop runs over the keys of the snapshot, and the store holds the
    snapshot updated by the assignments of the loop. *)
Lemma execute_shape (fuel : nat) :
  exists (c : bool) (st' : proc) (ext : list event),
    execute w fuel (group a) (batch a) (state_path a) (boot file) =
      (if c then Returned tt st' else Running st') /\
    trace st' = snapshot_events (group a) (batch a) (state_path a) g (state (boot file)) ++ ext /\
    state st' = replay (snapshot g file) ext /\
    disk st' = disk_after w (Some (state (boot file))) (state (boot file))
                          (adding_events (Instances g) ++ ext) /\
    batched (key_list (store_backend w) (snapshot g file)) (batch a)
            (Z.of_nat (List.length (snapshot g file))) c 0 ext.
Proof.
  rewrite execute_found with (g := g) by exact found.
  match goal with |- context [execute_loop w fuel _ _ 0 ?s] => set (st1 := s) end.
  destruct (execute_loop_batched w (batch a)
              (Z.of_nat (List.length (add_pending (state (boot file)) (Instances g))))
              fuel 0 st1) as (c & st' & ext & Hrun & (T & S' & X & _) & Hb).
  exists c, st', ext. split; [exact Hrun|].
  unfold st1 in T, S', X, Hb. cbn [trace state disk] in T, S', X, Hb.
  rewrite trace_boot in T. simpl in T.
  rewrite disk_after_app, replay_adding_events. repeat split; assumption.
Qed.

(** With a positive batch size and instances that all end up terminated, the
    call returns, for every fuel from some bound on. *)
Lemma execute_returns :
  0 < batch a ->
  eventually_terminated w (keys (snapshot g file)) ->
  exists fuel0, forall fuel, (fuel0 <= fuel)%nat ->
    exists st', execute w fuel (group a) (batch a) (state_path a) (boot file) = Returned tt st'.
Proof.
  intros HB Hev. destruct (eventually_terminated_bound Hev) as (T & HT).
  exists (S (List.length (snapshot g file) + T)). intros fuel Hfuel.
  rewrite execute_found with (g := g) by exact found.
  apply execute_loop_returns with (T := T); [exact HB | exact HT|].
  unfold snapshot in Hfuel. rewrite Z.sub_0_r, Nat2Z.id. lia.
Qed.

End Execute.

(** ** Runs that come to their end *)

Section CompleteRuns.

Variable w : cloud.
Variable a : args.
Variable file : option shelf.
Variable g : asg_group.
Hypothesis found : describe_auto_scaling_groups w (group a) = [g].
Variable b : nat.
Hypothesis b_pos : (0 < b)%nat.
Hypothesis b_batch : batch a = Z.of_nat b.

(** Every instance whose removal list was logged by a loop that ran to its
    end was seen terminated and stored as such. *)
Lemma batched_seen (K : list instance_id) (B N : Z) (c : bool) (idx : Z) (ext : list event) :
  batched K B N c idx ext ->
  forall i, c = true -> In i (List.concat (removal_lists ext)) ->
            In (EvReload i "terminated") ext /\ In (EvSetItem i terminated) ext.
Proof.
  induction 1 as [| | | c idx mext rest Hlt Hev Hseen Hb IH]; intros i Hc Hi;
    try discriminate; [destruct Hi|].
  destruct (monitor_event_quiet Hev) as (_ & R & _).
  unfold iteration_head in *.
  rewrite !removal_lists_app, R, removal_lists_trigger_events in Hi. simpl in Hi.
  rewrite !in_app_iff. apply in_app_or in Hi. destruct Hi as [Hi | Hi].
  - destruct (Hseen i Hi). auto.
  - destruct (IH i Hc Hi). auto.
Qed.

Lemma complete_run (fuel : nat) (st' : proc) :
  execute w fuel (group a) (batch a) (state_path a) (boot file) = Returned tt st' ->
  exists (ext : list event) (n : nat),
    trace st' =
      snapshot_events (group a) (batch a) (state_path a) g (state (boot file)) ++ ext /\
    state st' = replay (snapshot g file) ext /\
    disk st' = disk_after w (Some (state (boot file))) (state (boot file))
                          (adding_events (Instances g) ++ ext) /\
    Forall (loop_event (keys (snapshot g file))) ext /\
    removal_lists (trace st') = batches (key_list (store_backend w) (snapshot g file)) b n /\
    triggers (trace st') = key_list (store_backend w) (snapshot g file) /\
    (List.length (key_list (store_backend w) (snapshot g file)) <= n * b)%nat /\
    ((0 < n)%nat ->
     ((n - 1) * b < List.length (key_list (store_backend w) (snapshot g file)))%nat) /\
    (forall i, In i (keys (snapshot g file)) ->
               In (EvReload i "terminated") ext /\ In (EvSetItem i terminated) ext).
Proof.
  intros Hrun.
  destruct (execute_shape w a file found fuel) as (c & st'' & ext & Hrun' & T & S' & X & Hb).
  rewrite Hrun in Hrun'. destruct c; [|discriminate]. injection Hrun' as <-.
  rewrite b_batch in Hb.
  destruct (batched_complete b_pos Hb 0%nat eq_refl) as (n & Hr & _ & Hcov & Hleast); [lia|].
  set (K := key_list (store_backend w) (snapshot g file)) in *.
  rewrite <- (length_key_list (store_backend w)) in Hcov, Hleast. fold K in Hcov, Hleast.
  assert (Hcov' : (List.length K <= n * b)%nat) by lia.
  assert (Hleast' : (0 < n)%nat -> ((n - 1) * b < List.length K)%nat).
  { intros Hn. specialize (Hleast Hn). simpl in Hleast. lia. }
  destruct (snapshot_events_quiet a g (state (boot file))) as (Q1 & Q2 & _).
  assert (Hc : List.concat (removal_lists ext) = K).
  { rewrite Hr. now apply batches_concat. }
  assert (HK : forall i, In i (keys (snapshot g file)) -> In i K).
  { intros i. apply in_key_list. }
  exists ext, n. rewrite T, removal_lists_app, triggers_app, Q1, Q2. simpl.
  repeat split; try assumption.
  - rewrite <- b_batch in Hb. eapply Forall_impl; [|eapply batched_events, Hb].
    intros e. apply loop_event_incl. apply key_list_incl.
  - rewrite (batched_triggers Hb). exact Hc.
  - eapply batched_seen; [exact Hb | reflexivity | rewrite Hc; now apply HK].
  - eapply batched_seen; [exact Hb | reflexivity | rewrite Hc; now apply HK].
Qed.

End CompleteRuns.

(** ** Batch sizes that are not positive *)

Section NonPositive.

Variable w : cloud.

Lemma monitor_nothing (fuel : nat) (st : proc) :
  monitor_instance_termination w fuel [] st =
  Returned tt (mkProc (disk st) (state st) (rounds st)
                      (trace st ++ [EvLog INFO (MsgWaiting []); EvLog INFO MsgDone])).
Proof.
  unfold monitor_instance_termination. simpl fold_left.
  cbv [bind log emit]. destruct fuel; simpl; rewrite <- !app_assoc; reflexivity.
Qed.

(** With batch size 0 the cursor stays at 0: every unit of fuel buys one more
    idle iteration. *)
Lemma execute_loop_zero (N : Z) (fuel : nat) (st : proc) :
  0 < N ->
  execute_loop w fuel 0 N 0 st =
  Running (mkProc (disk st) (state st) (rounds st)
                  (trace st ++ List.concat (repeat (idle_iteration N) fuel))).
Proof.
  intros HN. revert st. induction fuel as [|fuel IH]; intros st.
  - simpl. destruct (Z.ltb_spec 0 N); [|lia]. unfold out_of_fuel.
    rewrite app_nil_r. now destruct st.
  - rewrite execute_loop_step by exact HN.
    unfold iteration_head. rewrite py_slice_empty. unfold bind.
    rewrite monitor_nothing. cbn [rounds state disk trace].
    rewrite IH. cbn [rounds state disk trace].
    simpl. rewrite Z.sub_0_r, <- !app_assoc. reflexivity.
Qed.

Lemma idle_iterations_quiet (N : Z) (fuel : nat) :
  triggers (List.concat (repeat (idle_iteration N) fuel)) = [] /\
  pendings (List.concat (repeat (idle_iteration N) fuel)) = repeat N fuel /\
  removal_lists (List.concat (repeat (idle_iteration N) fuel)) = repeat [] fuel.
Proof.
  induction fuel as [|fuel (IH1 & IH2 & IH3)]; simpl; [auto|].
  rewrite IH2, IH3. auto.
Qed.

(** With a batch size that is not positive the cursor never reaches the
    total: the loop does not return. *)
Lemma execute_loop_never_returns (B N : Z) (fuel : nat) (idx : Z) (st : proc) :
  B <= 0 -> idx < N ->
  exists st', execute_loop w fuel B N idx st = Running st'.
Proof.
  intros HB. revert idx st. induction fuel as [|fuel IH]; intros idx st Hlt.
  - exists st. simpl. destruct (Z.ltb_spec idx N); [reflexivity | lia].
  - rewrite execute_loop_step by exact Hlt.
    match goal with |- context [bind (monitor_instance_termination w fuel ?l) _ ?s] =>
      destruct (monitor_instance_termination_spec w fuel l s)
        as (done & st2 & mext & Hrun & _)
    end.
    unfold bind. rewrite Hrun. destruct done.
    + apply IH. lia.
    + now exists st2.
Qed.

End NonPositive.

(** ** Properties of the deployment *)

(** A positive batch size, seen as a natural number. *)
Ltac batch_as_nat a b Hb Hpos :=
  remember (Z.to_nat (batch a)) as b;
  assert (Hb : batch a = Z.of_nat b) by lia;
  assert (Hpos : (0 < b)%nat) by lia.

(** The scenario of five instances replaced two at a time, over a library
    that lists the keys in the order of insertion: three batches, the last of
    one instance. *)
Example demo_run_batches :
  removal_lists (trace (final (main demo_cloud 100 demo_args (boot None)))) =
  [["i1"; "i2"]; ["i3"; "i4"]; ["i5"]].
Proof. vm_compute. reflexivity. Qed.

Example demo_run_triggers :
  triggers (trace (final (main demo_cloud 100 demo_args (boot None)))) =
  ["i1"; "i2"; "i3"; "i4"; "i5"].
Proof. vm_compute. reflexivity. Qed.

(** A batch size larger than the group: one batch with every instance. *)
Example demo_run_single_batch :
  removal_lists
    (trace (final (execute demo_cloud 100 "g" 7 "g.state" (boot None)))) =
  [["i1"; "i2"; "i3"; "i4"; "i5"]].
Proof. vm_compute. reflexivity. Qed.

(** Slices with a negative bound count from the end, as in Python. *)
Example py_slice_negative :
  py_slice ["i1"; "i2"; "i3"] 0 (-1) = ["i1"; "i2"] /\
  py_slice ["i1"; "i2"; "i3"] (-1) (-2) = [] /\
  py_slice ["i1"; "i2"; "i3"] (-5) 2 = ["i1"; "i2"].
Proof. repeat split. Qed.

Lemma demo_eventually_terminated (ids : list instance_id) :
  eventually_terminated demo_cloud ids.
Proof.
  intros i _. exists 2%nat. intros t Ht.
  destruct t as [|[|t]]; [lia | lia | reflexivity].
Qed.

Lemma hashed_eventually_terminated (ids : list instance_id) :
  eventually_terminated hashed_cloud ids.
Proof.
  intros i _. exists 2%nat. intros t Ht.
  destruct t as [|[|t]]; [lia | lia | reflexivity].
Qed.

(** The same run over the hashed library: the batches follow the order in
    which that library lists the keys. *)
Example hashed_run_batches :
  removal_lists (trace (final (main hashed_cloud 100 demo_args (boot None)))) =
  [["i1"; "i3"]; ["i5"; "i2"]; ["i4"]].
Proof. vm_compute. reflexivity. Qed.

Lemma batches_partition (K : list instance_id) (b n : nat) :
  (0 < b)%nat ->
  (List.length K <= n * b)%nat ->
  ((0 < n)%nat -> ((n - 1) * b < List.length K)%nat) ->
  partition_of K (Z.of_nat b) (batches K b n).
Proof.
  intros Hb Hcov Hleast.
  assert (Hlen : List.length (batches K b n) = n).
  { unfold batches. now rewrite length_map, length_seq. }
  unfold partition_of. rewrite Hlen. repeat split.
  - now apply batches_count.
  - now apply batches_concat.
  - intros k Hk. f_equal. now apply batches_full.
  - intros Hne. apply batches_last; auto.
    destruct n; [now destruct Hne | lia].
Qed.



(** C3.  After a successful run (batch size above 0, group found, every
    instance of the snapshot ends up terminated) the mapping the run holds,
    as [execute] leaves it and before [main] deletes the store file, has the
    keys of the snapshot, none twice, so [N] entries, and holds [terminated]
    in every entry; when the store file was missing or empty at the start
    those keys are the instances of the group.  The store file is another
    matter: no assignment of the run is followed by a [sync()], so the file
    holds these entries only when the library writes every assignment through;
    with a library that buffers, the file still holds what it held when it was
    opened, and none of the [N] entries when the run created it. *)
Theorem successful_run_store_file_not_flushed (w : cloud) (a : args) (file : option shelf)
        (g : asg_group) :
  0 < batch a ->
  wf_store file ->
  describe_auto_scaling_groups w (group a) = [g] ->
  eventually_terminated w (keys (snapshot g file)) ->
  exists fuel0, forall fuel, (fuel0 <= fuel)%nat ->
    exists st',
      execute w fuel (group a) (batch a) (state_path a) (boot file) = Returned tt st' /\
      main w fuel a (boot file) = unlink w (state_path a) st' /\
      (forall k, In k (keys (state st')) <-> In k (keys (snapshot g file))) /\
      NoDup (keys (state st')) /\
      key_list (store_backend w) (state st') =
        key_list (store_backend w) (snapshot g file) /\
      List.length (state st') = List.length (snapshot g file) /\
      Forall (fun kv => snd kv = terminated) (state st') /\
      (state (boot file) = [] ->
       forall k, In k (keys (state st')) <-> In k (Instances g)) /\
      (write_through (store_backend w) = true -> store_file_of st' = Some (state st')) /\
      (write_through (store_backend w) = false ->
       store_file_of st' = Some (state (boot file))).
Proof.
  intros HB Hwf Hfound Hev.
  destruct (execute_returns a file Hfound HB Hev) as (fuel0 & Hret).
  exists fuel0. intros fuel Hfuel. destruct (Hret fuel Hfuel) as (st' & Hrun).
  exists st'. split; [exact Hrun|].
  batch_as_nat a b Hb Hpos.
  destruct (complete_run w a file Hfound Hpos Hb fuel Hrun)
    as (ext & n & _ & Hs & Hx & Hev' & _ & _ & _ & _ & Hseen).
  assert (Hk : keys (state st') = keys (snapshot g file)).
  { rewrite Hs. eapply keys_replay; [exact Hev' | apply incl_refl]. }
  assert (Hnd : NoDup (keys (snapshot g file))).
  { unfold snapshot. apply NoDup_keys_add_pending. exact Hwf. }
  destruct (disk_of_run w (Instances g) (state (boot file)) Hev') as (_ & Dt & Db).
  split; [|split; [|split; [|split; [|split; [|split; [|split; [|split]]]]]]].
  - unfold main, bind. now rewrite Hrun.
  - intros k. now rewrite Hk.
  - now rewrite Hk.
  - now apply key_list_same_keys.
  - now rewrite <- !length_keys, Hk.
  - apply all_values.
    + now rewrite Hk.
    + intros k Hin. rewrite Hk in Hin. rewrite Hs.
      eapply getitem_replay_stored; [exact Hev' | apply Hseen, Hin].
  - intros Hfresh k. rewrite Hk. unfold snapshot.
    rewrite in_keys_add_pending, Hfresh. simpl. tauto.
  - intros Hw. unfold store_file_of. rewrite Hx, Hs. now apply Dt.
  - intros Hw. unfold store_file_of. rewrite Hx. now apply Db.
Qed.

Lemma successful_run_store_file_not_flushed_witness :
  0 < batch demo_args /\
  wf_store None /\
  describe_auto_scaling_groups hashed_cloud (group demo_args) = [demo_group] /\
  eventually_terminated hashed_cloud (keys (snapshot demo_group None)) /\
  exists fuel0, forall fuel, (fuel0 <= fuel)%nat ->
    exists st',
      execute hashed_cloud fuel (group demo_args) (batch demo_args) (state_path demo_args)
              (boot None) = Returned tt st' /\
      main hashed_cloud fuel demo_args (boot None) =
        unlink hashed_cloud (state_path demo_args) st' /\
      List.length (state st') = 5%nat /\
      Forall (fun kv => snd kv = terminated) (state st') /\
      store_file_of st' = Some [].
Proof.
  assert (H1 : 0 < batch demo_args) by reflexivity.
  assert (H2 : wf_store None) by constructor.
  assert (H3 : describe_auto_scaling_groups hashed_cloud (group demo_args) = [demo_group])
    by reflexivity.
  assert (H4 : eventually_terminated hashed_cloud (keys (snapshot demo_group None)))
    by apply hashed_eventually_terminated.
  split; [exact H1|]. split; [exact H2|]. split; [exact H3|]. split; [exact H4|].
  destruct (@successful_run_store_file_not_flushed hashed_cloud demo_args None demo_group
              H1 H2 H3 H4) as (fuel0 & H).
  exists fuel0. intros fuel Hfuel.
  destruct (H fuel Hfuel) as (st' & R1 & R2 & _ & _ & _ & R3 & R4 & _ & _ & R5).
  exists st'. split; [exact R1|]. split; [exact R2|]. split; [exact R3|].
  split; [exact R4|]. exact (R5 eq_refl).
Defined.

(** C10.  On a snapshot that is not empty, [execute] with batch size 0 never
    returns: whatever the fuel it is still running, it has made as many
    iterations as it had fuel, each with an empty removal list and each
    logging all [N] instances as pending (the cursor is still 0), and it has
    issued no removal trigger.  With a batch size of 1 or more, and instances
    that all end up terminated, it returns after [ceil (N / B)] iterations. *)
Theorem zero_batch_never_ends_positive_batch_ends (w : cloud) (a : args)
        (file : option shelf) (g : asg_group) :
  describe_auto_scaling_groups w (group a) = [g] ->
  snapshot g file <> [] ->
  (batch a = 0 ->
   forall fuel, exists st',
     execute w fuel (group a) (batch a) (state_path a) (boot file) = Running st' /\
     triggers (trace st') = [] /\
     pendings (trace st') = repeat (Z.of_nat (List.length (snapshot g file))) fuel /\
     removal_lists (trace st') = repeat [] fuel) /\
  (1 <= batch a ->
   eventually_terminated w (keys (snapshot g file)) ->
   exists fuel0, forall fuel, (fuel0 <= fuel)%nat ->
     exists st',
       execute w fuel (group a) (batch a) (state_path a) (boot file) = Returned tt st' /\
       Z.of_nat (List.length (removal_lists (trace st'))) =
       (Z.of_nat (List.length (snapshot g file)) + batch a - 1) / batch a).
Proof.
  intros Hfound Hne. split.
  - intros HB fuel. rewrite execute_found with (g := g) by exact Hfound.
    rewrite HB. rewrite execute_loop_zero.
    2:{ fold (snapshot g file). destruct (snapshot g file); [congruence | simpl; lia]. }
    eexists. split; [reflexivity|]. cbn [trace]. rewrite trace_boot, app_nil_l.
    destruct (snapshot_events_quiet a g (state (boot file))) as (Q1 & Q2 & Q3).
    rewrite HB in Q1, Q2, Q3.
    destruct (idle_iterations_quiet
                (Z.of_nat (List.length (add_pending (state (boot file)) (Instances g))))
                fuel) as (I1 & I2 & I3).
    rewrite triggers_app, pendings_app, removal_lists_app, Q1, Q2, Q3, I1, I2, I3.
    auto.
  - intros HB Hev.
    destruct (execute_returns a file Hfound ltac:(lia) Hev) as (fuel0 & Hret).
    exists fuel0. intros fuel Hfuel. destruct (Hret fuel Hfuel) as (st' & Hrun).
    exists st'. split; [exact Hrun|].
    batch_as_nat a b Hb Hpos.
    destruct (complete_run w a file Hfound Hpos Hb fuel Hrun)
      as (ext & n & _ & _ & _ & _ & Hr & _ & Hcov & Hleast & _).
    rewrite Hr, Hb, <- (length_key_list (store_backend w)).
    apply (batches_partition _ Hpos Hcov Hleast).
Qed.

Lemma zero_batch_never_ends_positive_batch_ends_witness :
  describe_auto_scaling_groups demo_cloud (group demo_args) = [demo_group] /\
  snapshot demo_group None <> [] /\
  (forall fuel, exists st',
     execute demo_cloud fuel (group idle_args) (batch idle_args) (state_path idle_args)
             (boot None) = Running st' /\
     triggers (trace st') = [] /\
     pendings (trace st') = repeat (Z.of_nat (List.length (snapshot demo_group None))) fuel /\
     removal_lists (trace st') = repeat [] fuel) /\
  exists fuel0, forall fuel, (fuel0 <= fuel)%nat ->
    exists st',
      execute demo_cloud fuel (group demo_args) (batch demo_args) (state_path demo_args)
              (boot None) = Returned tt st' /\
      Z.of_nat (List.length (removal_lists (trace st'))) =
      (Z.of_nat (List.length (snapshot demo_group None)) + batch demo_args - 1)
      / batch demo_args.
Proof.
  split; [reflexivity|]. split; [discriminate|]. split.
  - apply (zero_batch_never_ends_positive_batch_ends demo_cloud idle_args None (g := demo_group));
      [reflexivity | discriminate | reflexivity].
  - apply (zero_batch_never_ends_positive_batch_ends demo_cloud demo_args None (g := demo_group));
      [reflexivity | discriminate | simpl; lia | apply demo_eventually_terminated].
Defined.

Lemma in_triggers (l : list event) (j : instance_id) :
  In (EvSetInstanceHealth j) l -> In j (triggers l).
Proof.
  induction l as [|e l IH]; simpl; [tauto|].
  intros [-> | H]; [now left|]. apply in_or_app. right. now apply IH.
Qed.

(** C1.  In every run with a batch size [B > 0], finished or not: when a
    removal trigger is issued for an instance of batch [k + 1], every instance
    of batch [k] has already been reloaded with the state name [terminated].
    The batches are the slices of the keys of the snapshot in the order in
    which [keys()] lists them. *)
Theorem batches_never_overlap (w : cloud) (a : args) (file : option shelf)
        (g : asg_group) (fuel : nat) :
  0 < batch a ->
  wf_store file ->
  describe_auto_scaling_groups w (group a) = [g] ->
  forall pre j post k i,
    trace (final (main w fuel a (boot file))) = pre ++ EvSetInstanceHealth j :: post ->
    In j (batch_no (key_list (store_backend w) (snapshot g file)) (batch a) (S k)) ->
    In i (batch_no (key_list (store_backend w) (snapshot g file)) (batch a) k) ->
    In (EvReload i "terminated") pre.
Proof.
  intros HB Hwf Hfound pre j post k i Hsplit Hj Hi.
  destruct (execute_shape w a file Hfound fuel) as (c & st' & ext & Hrun & T & _ & _ & Hb).
  batch_as_nat a b HbZ Hpos.
  assert (Htr : exists tail, trace (final (main w fuel a (boot file))) =
                             snapshot_events (group a) (batch a) (state_path a) g
                                             (state (boot file)) ++ ext ++ tail /\
                             triggers tail = []).
  { unfold main, bind. rewrite Hrun. destruct c.
    - exists [EvUnlink (state_path a)]. rewrite trace_unlink, T, <- app_assoc. auto.
    - exists []. simpl. rewrite T, app_nil_r. auto. }
  destruct Htr as (tail & Htr & Htail). rewrite Htr in Hsplit.
  apply split_at_event in Hsplit. destruct Hsplit as [(l' & Hs & _) | (pre' & -> & Hsplit)].
  { exfalso. destruct (snapshot_events_quiet a g (state (boot file))) as (Q & _).
    assert (Hin : In j (triggers (snapshot_events (group a) (batch a) (state_path a) g
                                                  (state (boot file))))).
    { apply in_triggers. rewrite Hs. apply in_or_app. right. now left. }
    rewrite Q in Hin. exact Hin. }
  apply split_at_event in Hsplit. destruct Hsplit as [(l' & Hs & _) | (pre'' & _ & Hs)].
  2:{ exfalso. assert (Hin : In j (triggers tail)).
      { apply in_triggers. rewrite Hs. apply in_or_app. right. now left. }
      rewrite Htail in Hin. exact Hin. }
  rewrite HbZ in Hb, Hj, Hi.
  destruct (batched_ordered Hpos Hb 0%nat eq_refl pre' j l' Hs) as (k' & _ & Hj' & Hobs).
  assert (Ek : k' = S k).
  { eapply (batch_no_disjoint Hpos); [|exact Hj' | exact Hj].
    apply NoDup_key_list. unfold snapshot. apply NoDup_keys_add_pending. exact Hwf. }
  apply in_or_app. right. apply (Hobs k i); [lia | exact Hi].
Qed.

Lemma batches_never_overlap_witness :
  0 < batch demo_args /\
  wf_store None /\
  describe_auto_scaling_groups hashed_cloud (group demo_args) = [demo_group] /\
  trace (final (main hashed_cloud 100 demo_args (boot None))) =
    firstn 38 (trace (final (main hashed_cloud 100 demo_args (boot None))))
    ++ EvSetInstanceHealth "i5"
    :: skipn 39 (trace (final (main hashed_cloud 100 demo_args (boot None)))) /\
  In "i5" (batch_no (key_list (store_backend hashed_cloud) (snapshot demo_group None))
                    (batch demo_args) 1) /\
  In "i3" (batch_no (key_list (store_backend hashed_cloud) (snapshot demo_group None))
                    (batch demo_args) 0) /\
  In (EvReload "i3" "terminated")
     (firstn 38 (trace (final (main hashed_cloud 100 demo_args (boot None))))).
Proof.
  assert (H1 : 0 < batch demo_args) by reflexivity.
  assert (H2 : wf_store None) by constructor.
  assert (H3 : describe_auto_scaling_groups hashed_cloud (group demo_args) = [demo_group])
    by reflexivity.
  assert (H4 : trace (final (main hashed_cloud 100 demo_args (boot None))) =
               firstn 38 (trace (final (main hashed_cloud 100 demo_args (boot None))))
               ++ EvSetInstanceHealth "i5"
               :: skipn 39 (trace (final (main hashed_cloud 100 demo_args (boot None)))))
    by (vm_compute; reflexivity).
  assert (H5 : In "i5" (batch_no (key_list (store_backend hashed_cloud)
                                           (snapshot demo_group None))
                                 (batch demo_args) 1))
    by (vm_compute; auto).
  assert (H6 : In "i3" (batch_no (key_list (store_backend hashed_cloud)
                                           (snapshot demo_group None))
                                 (batch demo_args) 0))
    by (vm_compute; auto).
  split; [exact H1|]. split; [exact H2|]. split; [exact H3|].
  split; [exact H4|]. split; [exact H5|]. split; [exact H6|].
  exact (@batches_never_overlap hashed_cloud demo_args None demo_group 100 H1 H2 H3
           (firstn 38 (trace (final (main hashed_cloud 100 demo_args (boot None)))))
           "i5"
           (skipn 39 (trace (final (main hashed_cloud 100 demo_args (boot None)))))
           0%nat "i3" H4 H5 H6).
Defined.

(** ** The store during a run *)




Lemma no_describe_in_loop (K : list instance_id) (ext : list event) (name : string) :
  Forall (loop_event K) ext -> ~ In (EvDescribeGroups name) ext.
Proof. intros H Hin. rewrite Forall_forall in H. exact (H _ Hin). Qed.












(** ** A batch size that is not positive *)

Lemma batched_nonpositive (K : list instance_id) (B N : Z) (c : bool) (idx : Z)
      (ext : list event) :
  batched K B N c idx ext -> B <= 0 -> idx < N -> c = false.
Proof.
  induction 1 as [idx Hge | | | c idx mext rest Hlt Hev Hseen Hb IH]; intros HB Hidx;
    try reflexivity; [lia|].
  apply IH; lia.
Qed.

Lemma batched_zero_triggers (K : list instance_id) (N : Z) (c : bool) (idx : Z)
      (ext : list event) :
  batched K 0 N c idx ext -> triggers ext = [].
Proof.
  induction 1 as [| | idx mext Hlt Hev | c idx mext rest Hlt Hev Hseen Hb IH];
    try reflexivity;
    destruct (monitor_event_quiet Hev) as (T & _);
    unfold iteration_head; rewrite Z.add_0_r, py_slice_empty, !triggers_app, T; simpl;
    [reflexivity | exact IH].
Qed.

Lemma batched_empty (K : list instance_id) (B : Z) (c : bool) (ext : list event) :
  batched K B 0 c 0 ext -> c = true /\ ext = [].
Proof. inversion 1; subst; try lia. auto. Qed.

(** C5, as the code has it.  A batch size [B <= 0] is not rejected.  On a
    group that is found, [execute] takes the snapshot as it does for any batch
    size and never ends with an error: on an empty snapshot it returns at once
    without a removal trigger, on any other snapshot it never returns.  With
    [B = 0] it issues no removal trigger. *)
Theorem nonpositive_batch_not_validated (w : cloud) (a : args) (file : option shelf)
        (g : asg_group) (fuel : nat) :
  batch a <= 0 ->
  describe_auto_scaling_groups w (group a) = [g] ->
  exists st' ext,
    final (execute w fuel (group a) (batch a) (state_path a) (boot file)) = st' /\
    trace st' =
      snapshot_events (group a) (batch a) (state_path a) g (state (boot file)) ++ ext /\
    (snapshot g file = [] ->
     execute w fuel (group a) (batch a) (state_path a) (boot file) = Returned tt st' /\
     triggers (trace st') = []) /\
    (snapshot g file <> [] ->
     execute w fuel (group a) (batch a) (state_path a) (boot file) = Running st') /\
    (batch a = 0 -> triggers (trace st') = []).
Proof.
  intros HB Hfound.
  destruct (execute_shape w a file Hfound fuel) as (c & st' & ext & Hrun & T & _ & _ & Hb).
  destruct (snapshot_events_quiet a g (state (boot file))) as (Q & _).
  exists st', ext. split; [rewrite Hrun; now destruct c|]. split; [exact T|].
  split; [|split].
  - intros Hs. rewrite Hs in Hb. simpl in Hb. apply batched_empty in Hb.
    destruct Hb as [-> ->]. split; [exact Hrun|].
    now rewrite T, app_nil_r.
  - intros Hs. apply batched_nonpositive in Hb; [now subst | exact HB|].
    destruct (snapshot g file); [congruence | simpl; lia].
  - intros H0. rewrite H0 in Hb. apply batched_zero_triggers in Hb.
    now rewrite T, triggers_app, Q, Hb.
Qed.

Lemma nonpositive_batch_not_validated_witness :
  batch negative_args <= 0 /\
  describe_auto_scaling_groups demo_cloud (group negative_args) = [demo_group] /\
  exists st' ext,
    final (execute demo_cloud 6 (group negative_args) (batch negative_args)
                   (state_path negative_args) (boot None)) = st' /\
    trace st' =
      snapshot_events (group negative_args) (batch negative_args) (state_path negative_args)
                      demo_group (state (boot None)) ++ ext /\
    (snapshot demo_group None = [] ->
     execute demo_cloud 6 (group negative_args) (batch negative_args)
             (state_path negative_args) (boot None) = Returned tt st' /\
     triggers (trace st') = []) /\
    (snapshot demo_group None <> [] ->
     execute demo_cloud 6 (group negative_args) (batch negative_args)
             (state_path negative_args) (boot None) = Running st') /\
    (batch negative_args = 0 -> triggers (trace st') = []).
Proof.
  assert (H1 : batch negative_args <= 0) by (simpl; lia).
  assert (H2 : describe_auto_scaling_groups demo_cloud (group negative_args) = [demo_group])
    by reflexivity.
  split; [exact H1|]. split; [exact H2|].
  exact (@nonpositive_batch_not_validated demo_cloud negative_args None demo_group 6 H1 H2).
Defined.

(** C5, as the claim has it, fails: with batch size -1 on the group of five
    instances the call is not rejected.  It opens the store, queries the
    group, marks the first four instances unhealthy and is still running. *)
Lemma negative_batch_not_rejected :
  ~ rejected_before_scheduling
      (execute demo_cloud 6 (group negative_args) (batch negative_args)
               (state_path negative_args) (boot None)) /\
  triggers (trace (final (execute demo_cloud 6 (group negative_args) (batch negative_args)
                                  (state_path negative_args) (boot None)))) =
  ["i1"; "i2"; "i3"; "i4"].
Proof.
  split; [|vm_compute; reflexivity].
  intros (_ & _ & _ & H). vm_compute in H. discriminate.
Qed.

(** ** A group that is not found, or found more than once *)

Section Lookup.

Variable w : cloud.
Variable a : args.
Variable file : option shelf.
Variable fuel : nat.

Lemma main_not_found :
  describe_auto_scaling_groups w (group a) = [] ->
  main w fuel a (boot file) =
  Exited 1 (mkProc (Some (state (boot file))) (state (boot file)) 0
                   (query_events (group a) (batch a) (state_path a)
                      ++ [EvLog ERROR (MsgNotFound (group a))])).
Proof.
  intros H. unfold main, bind. rewrite execute_not_found by exact H.
  now rewrite trace_boot, rounds_boot.
Qed.

Lemma main_ambiguous (g1 g2 : asg_group) (gs : list asg_group) :
  describe_auto_scaling_groups w (group a) = g1 :: g2 :: gs ->
  main w fuel a (boot file) =
  Raised TypeError (mkProc (Some (state (boot file))) (state (boot file)) 0
                           (query_events (group a) (batch a) (state_path a))).
Proof.
  intros H. unfold main, bind. rewrite execute_ambiguous with (1 := H).
  now rewrite trace_boot, rounds_boot.
Qed.

End Lookup.

(** C7.  When no group matches the name, the run logs the error
    ['AutoScaling group ... not found!'], exits with status 1 (not 0), and has
    issued no removal trigger. *)
Theorem group_not_found_exits (w : cloud) (a : args) (file : option shelf) (fuel : nat) :
  describe_auto_scaling_groups w (group a) = [] ->
  exists st',
    main w fuel a (boot file) = Exited 1 st' /\
    1 <> 0 /\
    In (EvLog ERROR (MsgNotFound (group a))) (trace st') /\
    triggers (trace st') = [].
Proof.
  intros H. eexists. split; [now apply main_not_found|].
  split; [lia|]. cbn [trace]. split; [|reflexivity].
  apply in_or_app. right. now left.
Qed.

Lemma group_not_found_exits_witness :
  describe_auto_scaling_groups empty_cloud (group demo_args) = [] /\
  exists st',
    main empty_cloud 10 demo_args (boot None) = Exited 1 st' /\
    1 <> 0 /\
    In (EvLog ERROR (MsgNotFound (group demo_args))) (trace st') /\
    triggers (trace st') = [].
Proof.
  split; [reflexivity|].
  exact (@group_not_found_exits empty_cloud demo_args None 10 eq_refl).
Defined.

(** C9.  When no group matches the name, the store was opened before the
    group was queried, nothing unlinks it, and the run exits leaving the store
    file on disk with what it held before the run: nothing, when the run
    created it. *)
Theorem not_found_leaves_store_file (w : cloud) (a : args) (file : option shelf)
        (fuel : nat) :
  describe_auto_scaling_groups w (group a) = [] ->
  exists st',
    main w fuel a (boot file) = Exited 1 st' /\
    (exists pre mid post,
        trace st' = pre ++ EvShelveOpen (state_path a) :: mid
                        ++ EvDescribeGroups (group a) :: post /\
        forall name, ~ In (EvDescribeGroups name) pre) /\
    (forall path, ~ In (EvUnlink path) (trace st')) /\
    store_file_of st' = Some (match file with Some s => s | None => [] end).
Proof.
  intros H. eexists. split; [now apply main_not_found|]. cbn [trace].
  split; [|split].
  - exists [EvLog INFO (MsgProcessingBatch (batch a)); EvLog INFO (MsgStoringState (group a))],
      [EvLog INFO (MsgFetching (group a))], [EvLog ERROR (MsgNotFound (group a))].
    split; [reflexivity|]. intros name [E | [E | []]]; discriminate.
  - intros path Hin. simpl in Hin.
    repeat (destruct Hin as [Hin | Hin]; [discriminate|]). exact Hin.
  - unfold store_file_of. simpl. now destruct file.
Qed.

Lemma not_found_leaves_store_file_witness :
  describe_auto_scaling_groups empty_cloud (group demo_args) = [] /\
  store_file_of (boot None) = None /\
  exists st',
    main empty_cloud 10 demo_args (boot None) = Exited 1 st' /\
    (exists pre mid post,
        trace st' = pre ++ EvShelveOpen (state_path demo_args) :: mid
                        ++ EvDescribeGroups (group demo_args) :: post /\
        forall name, ~ In (EvDescribeGroups name) pre) /\
    (forall path, ~ In (EvUnlink path) (trace st')) /\
    store_file_of st' = Some [].
Proof.
  split; [reflexivity|]. split; [reflexivity|].
  exact (@not_found_leaves_store_file empty_cloud demo_args None 10 eq_refl).
Defined.

(** C6, on the code.  With two groups for the name, [query_asg] takes
    neither branch and returns [None]; the run stops on the [TypeError] of
    subscripting it.  No error is logged, none of the two groups is picked,
    nothing is stored and no removal trigger is issued. *)
Theorem ambiguous_group_raises_type_error :
  exists st,
    main twin_cloud 10 demo_args (boot None) = Raised TypeError st /\
    trace st = query_events "g" 2 "g.state" /\
    (forall m, ~ In (EvLog ERROR m) (trace st)) /\
    triggers (trace st) = [] /\
    state st = [].
Proof.
  eexists. split; [reflexivity|]. cbn [trace state].
  split; [reflexivity|]. split; [|split; reflexivity].
  intros m H. simpl in H.
  repeat (destruct H as [H | H]; [discriminate|]). exact H.
Qed.

(** ** Flushing the store *)

Lemma snapshot_events_unsynced (asg_name : string) (B : Z) (store_file : string)
      (g : asg_group) (s0 : shelf) :
  ~ In EvSync (snapshot_events asg_name B store_file g s0).
Proof.
  unfold snapshot_events, query_events. rewrite !in_app_iff. simpl.
  intros [H | [H | [H | H]]].
  - repeat (destruct H as [H | H]; [discriminate|]). exact H.
  - destruct H as [H | []]. discriminate.
  - induction (Instances g) as [|i r IH]; simpl in H; [exact H|].
    destruct H as [H | [H | H]]; [discriminate | discriminate | exact (IH H)].
  - destruct H as [H | []]. discriminate.
Qed.

(** C4, on the code.  [update_state] does assign and then flush, but no run
    calls it: whatever the group, the batch size and the fuel, a run never
    flushes the store.  In the run over the five instances, [terminated] is
    assigned to i1 right after the reload that shows it, and that is all. *)
Theorem terminated_stored_without_flush :
  (forall w st k v,
      update_state w k v st =
      Returned tt (mkProc (Some (setitem (state st) k v)) (setitem (state st) k v)
                          (rounds st) (trace st ++ [EvSetItem k v; EvSync]))) /\
  (forall w a file fuel, ~ In EvSync (trace (final (main w fuel a (boot file))))) /\
  exists pre post,
    trace (final (main demo_cloud 100 demo_args (boot None))) =
    pre ++ [EvReload "i1" "terminated"; EvSetItem "i1" terminated;
            EvReload "i2" "terminated"] ++ post.
Proof.
  split; [|split].
  - intros w st k v. unfold update_state. cbv [bind state_setitem state_sync].
    cbn [rounds state disk trace]. now rewrite <- app_assoc.
  - intros w a file fuel Hin.
    destruct (describe_auto_scaling_groups w (group a)) as [|g [|g2 gs]] eqn:Hg.
    + rewrite main_not_found in Hin by exact Hg. simpl in Hin.
      repeat (destruct Hin as [Hin | Hin]; [discriminate|]). exact Hin.
    + destruct (execute_shape w a file Hg fuel)
        as (c & st' & ext & Hrun & T & _ & _ & Hb).
      apply batched_events in Hb. rewrite Forall_forall in Hb.
      unfold main, bind in Hin. rewrite Hrun in Hin.
      assert (Hst : ~ In EvSync (trace st')).
      { rewrite T, in_app_iff. intros [H | H].
        - revert H. apply snapshot_events_unsynced.
        - exact (Hb _ H). }
      destruct c; [|exact (Hst Hin)].
      rewrite trace_unlink in Hin.
      apply in_app_or in Hin. destruct Hin as [H | [H | []]]; [exact (Hst H) | discriminate].
    + rewrite main_ambiguous with (1 := Hg) in Hin. simpl in Hin.
      repeat (destruct Hin as [Hin | Hin]; [discriminate|]). exact Hin.
  - exists (firstn 30 (trace (final (main demo_cloud 100 demo_args (boot None))))),
      (skipn 33 (trace (final (main demo_cloud 100 demo_args (boot None))))).
    vm_compute. reflexivity.
Qed.

(** * Further properties of the code *)

(** ** What every part of a run's trace satisfies *)

Section TraceClosure.

Variable w : cloud.
Variable P : list event -> Prop.
Hypothesis P_nil : P [].
Hypothesis P_app : forall a b, P a -> P b -> P (a ++ b).
Hypothesis P_round : P [EvSleep 15; EvLog INFO MsgDots].
Hypothesis P_poll : forall t ks, P (poll_events w t ks).
Hypothesis P_waiting : forall ids, P [EvLog INFO (MsgWaiting ids)].
Hypothesis P_done : P [EvLog INFO MsgDone].
Hypothesis P_head : forall K B N idx, P (iteration_head K B N idx).

Lemma monitor_loop_closed (fuel : nat) (monitored : list instance_id) (st : proc) :
  exists ext,
    trace (final (monitor_loop w fuel monitored st)) = trace st ++ ext /\ P ext.
Proof.
  revert monitored st. induction fuel as [|fuel IH]; intros monitored st.
  - exists []. rewrite app_nil_r. split; [now destruct monitored | exact P_nil].
  - destruct monitored as [|i r].
    + exists []. rewrite app_nil_r. split; [reflexivity | exact P_nil].
    + rewrite monitor_loop_round by discriminate.
      destruct (IH (still_monitored w (i :: r) st) (after_round w (i :: r) st))
        as (ext & T & HP).
      exists (([EvSleep 15; EvLog INFO MsgDots] ++ poll_events w (S (rounds st)) (i :: r))
                ++ ext).
      split; [rewrite T; unfold after_round; cbn [trace]; now rewrite !app_assoc|].
      apply P_app; [apply P_app; [exact P_round | apply P_poll] | exact HP].
Qed.

Lemma monitor_instance_termination_closed (fuel : nat) (ids : list instance_id)
      (st : proc) :
  exists ext,
    trace (final (monitor_instance_termination w fuel ids st)) = trace st ++ ext /\ P ext.
Proof.
  unfold monitor_instance_termination. cbv [bind log emit].
  match goal with |- context [monitor_loop w fuel ?m ?s] =>
    destruct (monitor_loop_closed fuel m s) as (ext & T & HP);
    destruct (monitor_loop w fuel m s) as [[] st2 | c st2 | e st2 | st2] eqn:E
  end; cbn [final trace] in *.
  - exists (([EvLog INFO (MsgWaiting (fold_left dict_add ids []))] ++ ext)
              ++ [EvLog INFO MsgDone]).
    split; [rewrite T; now rewrite <- !app_assoc|].
    apply P_app; [apply P_app; [apply P_waiting | exact HP] | exact P_done].
  - exists ([EvLog INFO (MsgWaiting (fold_left dict_add ids []))] ++ ext).
    split; [rewrite T; now rewrite <- !app_assoc | apply P_app; [apply P_waiting | exact HP]].
  - exists ([EvLog INFO (MsgWaiting (fold_left dict_add ids []))] ++ ext).
    split; [rewrite T; now rewrite <- !app_assoc | apply P_app; [apply P_waiting | exact HP]].
  - exists ([EvLog INFO (MsgWaiting (fold_left dict_add ids []))] ++ ext).
    split; [rewrite T; now rewrite <- !app_assoc | apply P_app; [apply P_waiting | exact HP]].
Qed.

Lemma execute_loop_closed (B N : Z) (fuel : nat) (idx : Z) (st : proc) :
  exists ext,
    trace (final (execute_loop w fuel B N idx st)) = trace st ++ ext /\ P ext.
Proof.
  revert idx st. induction fuel as [|fuel IH]; intros idx st.
  - exists []. rewrite app_nil_r. split; [|exact P_nil].
    simpl. now destruct (idx <? N).
  - destruct (Z.lt_ge_cases idx N) as [Hlt | Hge].
    2:{ exists []. rewrite app_nil_r, execute_loop_stop by exact Hge. auto. }
    rewrite execute_loop_step by exact Hlt. unfold bind.
    match goal with |- context [monitor_instance_termination w fuel ?l ?s] =>
      destruct (monitor_instance_termination_closed fuel l s) as (mext & T & HP);
      destruct (monitor_instance_termination w fuel l s) as [[] st2 | c st2 | e st2 | st2] eqn:E
    end; cbn [final trace] in *.
    + destruct (IH (idx + B) st2) as (ext & T' & HP').
      exists ((iteration_head (key_list (store_backend w) (state st)) B N idx ++ mext) ++ ext).
      split; [rewrite T', T; now rewrite <- !app_assoc|].
      apply P_app; [apply P_app; [apply P_head | exact HP] | exact HP'].
    + exists (iteration_head (key_list (store_backend w) (state st)) B N idx ++ mext).
      split; [rewrite T; now rewrite <- !app_assoc | apply P_app; [apply P_head | exact HP]].
    + exists (iteration_head (key_list (store_backend w) (state st)) B N idx ++ mext).
      split; [rewrite T; now rewrite <- !app_assoc | apply P_app; [apply P_head | exact HP]].
    + exists (iteration_head (key_list (store_backend w) (state st)) B N idx ++ mext).
      split; [rewrite T; now rewrite <- !app_assoc | apply P_app; [apply P_head | exact HP]].
Qed.

(** The whole run, whatever the answer of the group lookup. *)
Hypothesis P_query : forall asg_name B store_file, P (query_events asg_name B store_file).
Hypothesis P_not_found : forall asg_name, P [EvLog ERROR (MsgNotFound asg_name)].
Hypothesis P_snapshot :
  forall asg_name B store_file g s0, P (snapshot_events asg_name B store_file g s0).
Hypothesis P_unlink : forall path, P [EvUnlink path].

Lemma main_closed (fuel : nat) (a : args) (file : option shelf) :
  P (trace (final (main w fuel a (boot file)))).
Proof.
  destruct (describe_auto_scaling_groups w (group a)) as [|g [|g2 gs]] eqn:Hg.
  - rewrite main_not_found by exact Hg. cbn [final trace].
    apply P_app; [apply P_query | apply P_not_found].
  - unfold main, bind. rewrite execute_found with (g := g) by exact Hg.
    match goal with |- context [execute_loop w fuel ?B ?N 0 ?s] =>
      destruct (execute_loop_closed B N fuel 0 s) as (ext & T & HP);
      destruct (execute_loop w fuel B N 0 s) as [[] st2 | c st2 | e st2 | st2] eqn:E
    end; try rewrite trace_unlink; cbn [final trace] in *; rewrite T, trace_boot, app_nil_l.
    + apply P_app; [apply P_app; [apply P_snapshot | exact HP] | apply P_unlink].
    + apply P_app; [apply P_snapshot | exact HP].
    + apply P_app; [apply P_snapshot | exact HP].
    + apply P_app; [apply P_snapshot | exact HP].
  - rewrite main_ambiguous with (1 := Hg). cbn [final trace]. apply P_query.
Qed.

End TraceClosure.

(** ** Recording what polling sees *)

Ltac recorded_step :=
  apply recorded_other; [intros ? ?; discriminate | intros ? ?; discriminate |].

Lemma recorded_app (a b : list event) : recorded a -> recorded b -> recorded (a ++ b).
Proof.
  induction 1 as [|i r Hr IH | e r H1 H2 Hr IH]; intros Hb; simpl.
  - exact Hb.
  - apply recorded_seen. now apply IH.
  - apply recorded_other; auto.
Qed.

Lemma recorded_poll_events (w : cloud) (t : nat) (ks : list instance_id) :
  recorded (poll_events w t ks).
Proof.
  induction ks as [|i ks IH]; simpl; [constructor|].
  destruct (String.eqb_spec (instance_state_name w t i) "terminated") as [E | N].
  - rewrite E. simpl. now apply recorded_seen.
  - simpl. apply recorded_other; [| intros ? ?; discriminate | exact IH].
    intros j H. injection H as _ H. contradiction.
Qed.

Lemma recorded_trigger_events (l : list instance_id) : recorded (trigger_events l).
Proof. induction l; simpl; [constructor|]. now repeat recorded_step. Qed.

Lemma recorded_adding_events (l : list instance_id) : recorded (adding_events l).
Proof. induction l; simpl; [constructor|]. now repeat recorded_step. Qed.

Lemma recorded_main (w : cloud) (fuel : nat) (a : args) (file : option shelf) :
  recorded (trace (final (main w fuel a (boot file)))).
Proof.
  apply main_closed with (P := recorded).
  - constructor.
  - apply recorded_app.
  - repeat recorded_step. constructor.
  - apply recorded_poll_events.
  - intros. recorded_step. constructor.
  - recorded_step. constructor.
  - intros. unfold iteration_head. apply recorded_app; [|apply recorded_trigger_events].
    repeat recorded_step. constructor.
  - intros. unfold query_events. repeat recorded_step. constructor.
  - intros. recorded_step. constructor.
  - intros. unfold snapshot_events, query_events.
    apply recorded_app; [repeat recorded_step; constructor|].
    apply recorded_app; [recorded_step; constructor|].
    apply recorded_app; [apply recorded_adding_events|]. recorded_step. constructor.
  - intros. recorded_step. constructor.
Qed.

Lemma recorded_split (tr : list event) :
  recorded tr ->
  forall pre e post, tr = pre ++ e :: post ->
    (forall i, e = EvReload i "terminated" ->
               exists post', post = EvSetItem i terminated :: post') /\
    (forall i, e = EvSetItem i terminated ->
               exists pre', pre = pre' ++ [EvReload i "terminated"]).
Proof.
  induction 1 as [|j r Hr IH | e0 r H1 H2 Hr IH]; intros pre e post Hsplit.
  - now destruct pre.
  - destruct pre as [|x [|y pre]]; simpl in Hsplit.
    + injection Hsplit as <- <-. split.
      * intros i E. injection E as <-. now exists r.
      * intros i E. discriminate.
    + injection Hsplit as <- <- <-. split.
      * intros i E. discriminate.
      * intros i E. injection E as <-. now exists [].
    + injection Hsplit as <- <- Hsplit. destruct (IH _ _ _ Hsplit) as [Ha Hb]. split.
      * exact Ha.
      * intros i E. destruct (Hb i E) as (pre' & ->).
        now exists (EvReload j "terminated" :: EvSetItem j terminated :: pre').
  - destruct pre as [|x pre]; simpl in Hsplit.
    + injection Hsplit as <- <-. split; intros i E.
      * exfalso. exact (H1 i E).
      * exfalso. exact (H2 i E).
    + injection Hsplit as <- Hsplit. destruct (IH _ _ _ Hsplit) as [Ha Hb]. split.
      * exact Ha.
      * intros i E. destruct (Hb i E) as (pre' & ->). now exists (e0 :: pre').
Qed.

(** X1.  In every run, whatever the group, the batch size and the moment:
    a reload that shows [terminated] for an instance is followed at once by
    the assignment of [terminated] to that instance in the store, and
    [terminated] is assigned only there, right after such a reload of the
    same instance. *)
Theorem terminated_recorded_at_once (w : cloud) (a : args) (file : option shelf)
        (fuel : nat) (pre post : list event) (e : event) :
  trace (final (main w fuel a (boot file))) = pre ++ e :: post ->
  (forall i, e = EvReload i "terminated" ->
             exists post', post = EvSetItem i terminated :: post') /\
  (forall i, e = EvSetItem i terminated ->
             exists pre', pre = pre' ++ [EvReload i "terminated"]).
Proof. apply recorded_split, recorded_main. Qed.

Lemma terminated_recorded_at_once_witness :
  trace (final (main demo_cloud 100 demo_args (boot None))) =
    firstn 30 (trace (final (main demo_cloud 100 demo_args (boot None))))
    ++ EvReload "i1" "terminated"
    :: skipn 31 (trace (final (main demo_cloud 100 demo_args (boot None)))) /\
  exists post',
    skipn 31 (trace (final (main demo_cloud 100 demo_args (boot None)))) =
    EvSetItem "i1" terminated :: post'.
Proof.
  assert (H : trace (final (main demo_cloud 100 demo_args (boot None))) =
              firstn 30 (trace (final (main demo_cloud 100 demo_args (boot None))))
              ++ EvReload "i1" "terminated"
              :: skipn 31 (trace (final (main demo_cloud 100 demo_args (boot None)))))
    by (vm_compute; reflexivity).
  split; [exact H|].
  exact (proj1 (@terminated_recorded_at_once demo_cloud demo_args None 100 _ _ _ H)
               "i1" eq_refl).
Defined.

(** ** An instance that never terminates *)

Lemma genuine_main (w : cloud) (fuel : nat) (a : args) (file : option shelf) :
  Forall (genuine w) (trace (final (main w fuel a (boot file)))).
Proof.
  apply main_closed with (P := Forall (genuine w)).
  - constructor.
  - intros x y Hx Hy. apply Forall_app. now split.
  - repeat constructor.
  - intros t ks. induction ks as [|i ks IH]; simpl; [constructor|].
    constructor; [now exists t|].
    destruct (String.eqb _ _); [constructor; [exact I|] |]; exact IH.
  - repeat constructor.
  - repeat constructor.
  - intros K B N idx. unfold iteration_head. apply Forall_app. split; [repeat constructor|].
    induction (py_slice K idx (idx + B)); simpl; repeat constructor. assumption.
  - repeat constructor.
  - repeat constructor.
  - intros asg_name B store_file g s0. unfold snapshot_events, query_events.
    repeat (apply Forall_app; split); try (repeat constructor).
    induction (Instances g); simpl; repeat constructor. assumption.
  - repeat constructor.
Qed.

Lemma execute_trace_in_main (w : cloud) (fuel : nat) (a : args) (st : proc) (e : event) :
  In e (trace (final (execute w fuel (group a) (batch a) (state_path a) st))) ->
  In e (trace (final (main w fuel a st))).
Proof.
  unfold main, bind.
  destruct (execute w fuel (group a) (batch a) (state_path a) st) as [[] s | c s | x s | s];
    try rewrite trace_unlink; simpl; auto.
  intros H. apply in_or_app. now left.
Qed.

Lemma never_seen_terminated (w : cloud) (fuel : nat) (a : args) (file : option shelf)
      (i : instance_id) :
  (forall t, instance_state_name w t i <> "terminated") ->
  ~ In (EvReload i "terminated")
       (trace (final (execute w fuel (group a) (batch a) (state_path a) (boot file)))).
Proof.
  intros Hstuck Hin. apply execute_trace_in_main in Hin.
  pose proof (genuine_main w fuel a file) as G. rewrite Forall_forall in G.
  destruct (G _ Hin) as (t & Ht). exact (Hstuck t (eq_sym Ht)).
Qed.

(** X2.  There is no timeout: with a batch size above 0, when an instance of
    batch [k] never reports [terminated], [execute] never returns, whatever
    the fuel, and no instance of a later batch is ever marked unhealthy.  The
    batches are the slices of the keys of the snapshot in the order in which
    [keys()] lists them. *)
Theorem stuck_instance_blocks_run (w : cloud) (a : args) (file : option shelf)
        (g : asg_group) (i : instance_id) (k : nat) :
  0 < batch a ->
  wf_store file ->
  describe_auto_scaling_groups w (group a) = [g] ->
  In i (batch_no (key_list (store_backend w) (snapshot g file)) (batch a) k) ->
  (forall t, instance_state_name w t i <> "terminated") ->
  forall fuel,
    exists st',
      execute w fuel (group a) (batch a) (state_path a) (boot file) = Running st' /\
      forall k' j, (k < k')%nat ->
                   In j (batch_no (key_list (store_backend w) (snapshot g file))
                                  (batch a) k') ->
                   ~ In (EvSetInstanceHealth j) (trace st').
Proof.
  intros HB Hwf Hfound Hi Hstuck fuel.
  pose proof (@never_seen_terminated w fuel a file i Hstuck) as Hnever.
  destruct (execute_shape w a file Hfound fuel) as (c & st' & ext & Hrun & T & _ & _ & Hb).
  batch_as_nat a b HbZ Hpos.
  destruct c.
  { exfalso. apply Hnever. rewrite Hrun. cbn [final].
    destruct (complete_run w a file Hfound Hpos HbZ fuel Hrun)
      as (ext' & n & T' & _ & _ & _ & _ & _ & _ & _ & Hseen).
    rewrite T'. apply in_or_app. right. apply Hseen.
    eapply key_list_incl, py_slice_incl, Hi. }
  exists st'. split; [exact Hrun|].
  rewrite Hrun in Hnever. cbn [final] in Hnever.
  intros k' j Hk Hj Hin. rewrite T in Hin, Hnever.
  apply in_app_or in Hin. destruct Hin as [Hin | Hin].
  { destruct (snapshot_events_quiet a g (state (boot file))) as (Q & _).
    apply in_triggers in Hin. rewrite Q in Hin. exact Hin. }
  apply in_split in Hin. destruct Hin as (pre & post & Hsplit).
  rewrite HbZ in Hb, Hj, Hi.
  destruct (batched_ordered Hpos Hb 0%nat eq_refl pre j post Hsplit) as (k'' & _ & Hj' & Hobs).
  assert (Ek : k'' = k').
  { eapply (batch_no_disjoint Hpos); [|exact Hj' | exact Hj].
    apply NoDup_key_list. unfold snapshot. apply NoDup_keys_add_pending. exact Hwf. }
  subst k''. apply Hnever. rewrite Hsplit. apply in_or_app. right.
  apply in_or_app. left. apply (Hobs k i); [lia | exact Hi].
Qed.

Lemma stuck_instance_blocks_run_witness :
  0 < batch demo_args /\
  wf_store None /\
  describe_auto_scaling_groups stuck_cloud (group demo_args) = [demo_group] /\
  In "i3" (batch_no (key_list (store_backend stuck_cloud) (snapshot demo_group None))
                    (batch demo_args) 0) /\
  (forall t, instance_state_name stuck_cloud t "i3" <> "terminated") /\
  forall fuel,
    exists st',
      execute stuck_cloud fuel (group demo_args) (batch demo_args) (state_path demo_args)
              (boot None) = Running st' /\
      forall k' j, (0 < k')%nat ->
                   In j (batch_no (key_list (store_backend stuck_cloud)
                                            (snapshot demo_group None))
                                  (batch demo_args) k') ->
                   ~ In (EvSetInstanceHealth j) (trace st').
Proof.
  assert (H1 : 0 < batch demo_args) by reflexivity.
  assert (H2 : wf_store None) by constructor.
  assert (H3 : describe_auto_scaling_groups stuck_cloud (group demo_args) = [demo_group])
    by reflexivity.
  assert (H4 : In "i3" (batch_no (key_list (store_backend stuck_cloud)
                                           (snapshot demo_group None))
                                 (batch demo_args) 0))
    by (vm_compute; auto).
  assert (H5 : forall t, instance_state_name stuck_cloud t "i3" <> "terminated")
    by (intros t; simpl; discriminate).
  split; [exact H1|]. split; [exact H2|]. split; [exact H3|].
  split; [exact H4|]. split; [exact H5|].
  exact (@stuck_instance_blocks_run stuck_cloud demo_args None demo_group "i3" 0%nat
           H1 H2 H3 H4 H5).
Defined.

(** On the hashed library the instance that never terminates is in the first
    batch: i5, i2 and i4 are never marked unhealthy. *)
Example stuck_run_triggers :
  triggers (trace (final (main stuck_cloud 50 demo_args (boot None)))) = ["i1"; "i3"].
Proof. vm_compute. reflexivity. Qed.

(** ** Instances out of service at any moment *)

Section Outstanding.

Lemma seen_in_app (a b : list event) (i : instance_id) :
  seen_in (a ++ b) i = seen_in a i || seen_in b i.
Proof. apply existsb_app. Qed.

Lemma seen_in_reload (tr : list event) (i : instance_id) :
  In (EvReload i "terminated") tr -> seen_in tr i = true.
Proof.
  intros H. apply existsb_exists. exists (EvReload i "terminated").
  split; [exact H|]. now rewrite !String.eqb_refl.
Qed.

Lemma filter_length_mono (A : Type) (f f' : A -> bool) (l : list A) :
  (forall x, f x = true -> f' x = true) ->
  (List.length (filter f l) <= List.length (filter f' l))%nat.
Proof.
  intros H. induction l as [|x l IH]; simpl; [lia|].
  destruct (f x) eqn:E.
  - rewrite (H x E). simpl. lia.
  - destruct (f' x); simpl; lia.
Qed.

Lemma outstanding_app (a b : list event) :
  (List.length (outstanding (a ++ b)) <=
   List.length (outstanding a) + List.length (outstanding b))%nat.
Proof.
  unfold outstanding. rewrite triggers_app, filter_app, length_app.
  apply Nat.add_le_mono; apply filter_length_mono; intros i;
    rewrite seen_in_app; destruct (seen_in a i), (seen_in b i); simpl; auto.
Qed.

Lemma outstanding_le_triggers (tr : list event) :
  (List.length (outstanding tr) <= List.length (triggers tr))%nat.
Proof.
  unfold outstanding. induction (triggers tr) as [|x l IH]; simpl; [lia|].
  destruct (negb (seen_in tr x)); simpl; lia.
Qed.

Lemma outstanding_prefix (pre post : list event) :
  (List.length (outstanding pre) <= List.length (triggers (pre ++ post)))%nat.
Proof.
  rewrite triggers_app, length_app. pose proof (outstanding_le_triggers pre). lia.
Qed.

Lemma outstanding_all_seen (tr : list event) :
  (forall i, In i (triggers tr) -> In (EvReload i "terminated") tr) ->
  outstanding tr = [].
Proof.
  intros H. unfold outstanding.
  assert (G : forall l, incl l (triggers tr) ->
                        filter (fun i => negb (seen_in tr i)) l = []).
  { induction l as [|x l IH]; intros Hl; simpl; [reflexivity|].
    rewrite (seen_in_reload tr x) by (apply H, Hl; now left). simpl.
    apply IH. intros y Hy. apply Hl. now right. }
  apply G, incl_refl.
Qed.

Variable K : list instance_id.
Variable b : nat.
Hypothesis b_pos : (0 < b)%nat.
Variable N : Z.

Lemma triggers_iteration (idx : Z) (mext : list event) :
  Forall (monitor_event (py_slice K idx (idx + Z.of_nat b))) mext ->
  triggers (iteration_head K (Z.of_nat b) N idx ++ mext) =
  py_slice K idx (idx + Z.of_nat b).
Proof.
  intros Hev. destruct (monitor_event_quiet Hev) as (T & _).
  unfold iteration_head. rewrite !triggers_app, T, triggers_trigger_events.
  simpl. now rewrite app_nil_r.
Qed.

(** At every moment of the batch loop at most [b] instances are marked
    unhealthy and not yet seen terminated. *)
Lemma batched_outstanding (c : bool) (idx : Z) (ext : list event) :
  batched K (Z.of_nat b) N c idx ext ->
  forall k0, idx = Z.of_nat k0 * Z.of_nat b ->
  forall pre post, ext = pre ++ post -> (List.length (outstanding pre) <= b)%nat.
Proof.
  induction 1 as [| | idx mext Hlt Hev | c idx mext rest Hlt Hev Hseen Hb IH];
    intros k0 Hidx pre post Hsplit.
  - symmetry in Hsplit. apply app_eq_nil in Hsplit. destruct Hsplit as [-> _]. simpl. lia.
  - symmetry in Hsplit. apply app_eq_nil in Hsplit. destruct Hsplit as [-> _]. simpl. lia.
  - pose proof (outstanding_prefix pre post) as Hp.
    rewrite <- Hsplit, (triggers_iteration _ Hev), Hidx in Hp.
    fold (batch_no K (Z.of_nat b) k0) in Hp. rewrite length_batch_no in Hp. lia.
  - rewrite app_assoc in Hsplit. apply app_eq_app in Hsplit.
    destruct Hsplit as (l & [[HA Hpost] | [Hpre Hrest]]).
    + pose proof (outstanding_prefix pre l) as Hp.
      rewrite <- HA, (triggers_iteration _ Hev), Hidx in Hp.
      fold (batch_no K (Z.of_nat b) k0) in Hp. rewrite length_batch_no in Hp. lia.
    + subst pre. pose proof (outstanding_app (iteration_head K (Z.of_nat b) N idx ++ mext) l)
        as Hp.
      assert (E : outstanding (iteration_head K (Z.of_nat b) N idx ++ mext) = []).
      { apply outstanding_all_seen. intros i Hi.
        rewrite (triggers_iteration _ Hev) in Hi.
        apply in_or_app. right. now apply Hseen. }
      rewrite E in Hp. cbn [List.length] in Hp.
      specialize (IH (S k0) ltac:(lia) l post Hrest). lia.
Qed.

End Outstanding.

(** X3.  With a batch size [B > 0], at every moment of every run, finished
    or not, at most [B] instances have been marked unhealthy without having
    been seen terminated since. *)
Theorem at_most_batch_out_of_service (w : cloud) (a : args) (file : option shelf)
        (g : asg_group) (fuel : nat) :
  0 < batch a ->
  describe_auto_scaling_groups w (group a) = [g] ->
  forall pre post,
    trace (final (main w fuel a (boot file))) = pre ++ post ->
    Z.of_nat (List.length (outstanding pre)) <= batch a.
Proof.
  intros HB Hfound pre post Hsplit.
  destruct (execute_shape w a file Hfound fuel) as (c & st' & ext & Hrun & T & _ & _ & Hb).
  batch_as_nat a b HbZ Hpos. rewrite HbZ in Hb |- *.
  destruct (snapshot_events_quiet a g (state (boot file))) as (Q & _).
  assert (Htr : exists tail, trace (final (main w fuel a (boot file))) =
                             snapshot_events (group a) (batch a) (state_path a) g
                                             (state (boot file)) ++ ext ++ tail /\
                             triggers tail = []).
  { unfold main, bind. rewrite Hrun. destruct c.
    - exists [EvUnlink (state_path a)]. rewrite trace_unlink, T, <- app_assoc. auto.
    - exists []. simpl. rewrite T, app_nil_r. auto. }
  destruct Htr as (tail & Htr & Htail). rewrite Htr in Hsplit.
  apply app_eq_app in Hsplit. destruct Hsplit as (l & [[HS _] | [Hpre Hrest]]).
  { pose proof (outstanding_prefix pre l) as Hp. rewrite <- HS, Q in Hp. simpl in Hp. lia. }
  subst pre.
  pose proof (outstanding_app
                (snapshot_events (group a) (batch a) (state_path a) g (state (boot file))) l)
    as H1.
  pose proof (outstanding_le_triggers
                (snapshot_events (group a) (batch a) (state_path a) g (state (boot file))))
    as H2.
  rewrite Q in H2. simpl in H2.
  apply app_eq_app in Hrest. destruct Hrest as (l' & [[Hext _] | [Hl Htl]]).
  - pose proof (batched_outstanding Hpos Hb 0%nat eq_refl l l' Hext). lia.
  - subst l. pose proof (outstanding_app ext l') as H3.
    pose proof (batched_outstanding Hpos Hb 0%nat eq_refl ext [] (eq_sym (app_nil_r ext)))
      as H4.
    pose proof (outstanding_prefix l' post) as H5. rewrite <- Htl, Htail in H5.
    simpl in H5. lia.
Qed.

Lemma at_most_batch_out_of_service_witness :
  0 < batch demo_args /\
  describe_auto_scaling_groups demo_cloud (group demo_args) = [demo_group] /\
  trace (final (main demo_cloud 100 demo_args (boot None))) =
    firstn 23 (trace (final (main demo_cloud 100 demo_args (boot None))))
    ++ skipn 23 (trace (final (main demo_cloud 100 demo_args (boot None)))) /\
  Z.of_nat (List.length
              (outstanding
                 (firstn 23 (trace (final (main demo_cloud 100 demo_args (boot None)))))))
  <= batch demo_args.
Proof.
  assert (H1 : 0 < batch demo_args) by reflexivity.
  assert (H2 : describe_auto_scaling_groups demo_cloud (group demo_args) = [demo_group])
    by reflexivity.
  assert (H3 : trace (final (main demo_cloud 100 demo_args (boot None))) =
               firstn 23 (trace (final (main demo_cloud 100 demo_args (boot None))))
               ++ skipn 23 (trace (final (main demo_cloud 100 demo_args (boot None)))))
    by (vm_compute; reflexivity).
  split; [exact H1|]. split; [exact H2|]. split; [exact H3|].
  exact (@at_most_batch_out_of_service demo_cloud demo_args None demo_group 100 H1 H2 _ _ H3).
Defined.

(** ** The order of the removal triggers *)

Lemma batched_triggers_prefix (K : list instance_id) (b : nat) (N : Z) (c : bool)
      (idx : Z) (ext : list event) :
  (0 < b)%nat ->
  batched K (Z.of_nat b) N c idx ext ->
  forall k0, idx = Z.of_nat k0 * Z.of_nat b ->
  exists rest, skipn (k0 * b) K = triggers ext ++ rest.
Proof.
  intros Hpos.
  induction 1 as [| | idx mext Hlt Hev | c idx mext rest Hlt Hev Hseen Hb IH];
    intros k0 Hidx.
  - now exists (skipn (k0 * b) K).
  - now exists (skipn (k0 * b) K).
  - exists (skipn b (skipn (k0 * b) K)).
    rewrite (@triggers_iteration K b N idx mext Hev), Hidx.
    fold (batch_no K (Z.of_nat b) k0). rewrite batch_no_nat by exact Hpos.
    now rewrite firstn_skipn.
  - destruct (IH (S k0) ltac:(lia)) as (r & Hr). exists r.
    rewrite app_assoc, triggers_app, (@triggers_iteration K b N idx mext Hev), Hidx.
    fold (batch_no K (Z.of_nat b) k0). rewrite batch_no_nat by exact Hpos.
    rewrite <- app_assoc, <- Hr.
    replace (S k0 * b)%nat with (b + k0 * b)%nat by lia.
    now rewrite <- skipn_skipn, firstn_skipn.
Qed.

(** X4.  With a batch size above 0 and at any moment of a run: the instances
    marked unhealthy so far are the first keys of the snapshot, in the order
    in which [keys()] lists them, and none was marked twice. *)
Theorem triggers_follow_snapshot_order (w : cloud) (a : args) (file : option shelf)
        (g : asg_group) (fuel : nat) :
  0 < batch a ->
  wf_store file ->
  describe_auto_scaling_groups w (group a) = [g] ->
  (exists rest,
      key_list (store_backend w) (snapshot g file) =
      triggers (trace (final (main w fuel a (boot file)))) ++ rest) /\
  NoDup (triggers (trace (final (main w fuel a (boot file))))).
Proof.
  intros HB Hwf Hfound.
  destruct (execute_shape w a file Hfound fuel) as (c & st' & ext & Hrun & T & _ & _ & Hb).
  batch_as_nat a b HbZ Hpos. rewrite HbZ in Hb.
  destruct (snapshot_events_quiet a g (state (boot file))) as (Q & _).
  assert (Et : triggers (trace (final (main w fuel a (boot file)))) = triggers ext).
  { unfold main, bind. rewrite Hrun. destruct c.
    - rewrite trace_unlink, T, !triggers_app, Q. simpl. now rewrite app_nil_r.
    - simpl. now rewrite T, !triggers_app, Q. }
  destruct (batched_triggers_prefix Hpos Hb 0%nat eq_refl) as (rest & Hrest).
  simpl in Hrest. rewrite Et.
  assert (Hnd : NoDup (key_list (store_backend w) (snapshot g file))).
  { apply NoDup_key_list. unfold snapshot. apply NoDup_keys_add_pending. exact Hwf. }
  split; [now exists rest|].
  rewrite Hrest in Hnd. eapply NoDup_app_remove_r, Hnd.
Qed.

Lemma triggers_follow_snapshot_order_witness :
  0 < batch demo_args /\
  wf_store None /\
  describe_auto_scaling_groups hashed_cloud (group demo_args) = [demo_group] /\
  triggers (trace (final (main hashed_cloud 2 demo_args (boot None)))) =
    ["i1"; "i3"] /\
  (exists rest,
      key_list (store_backend hashed_cloud) (snapshot demo_group None) =
      triggers (trace (final (main hashed_cloud 2 demo_args (boot None)))) ++ rest) /\
  NoDup (triggers (trace (final (main hashed_cloud 2 demo_args (boot None))))).
Proof.
  assert (H1 : 0 < batch demo_args) by reflexivity.
  assert (H2 : wf_store None) by constructor.
  assert (H3 : describe_auto_scaling_groups hashed_cloud (group demo_args) = [demo_group])
    by reflexivity.
  split; [exact H1|]. split; [exact H2|]. split; [exact H3|].
  split; [vm_compute; reflexivity|].
  exact (@triggers_follow_snapshot_order hashed_cloud demo_args None demo_group 2 H1 H2 H3).
Defined.

(** ** A batch size that covers the whole group *)

(** X5.  When the batch size is at least the size of a snapshot that is not
    empty, a successful run makes a single batch: the removal list of its only
    iteration holds every key of the snapshot, as [keys()] lists them. *)
Theorem covering_batch_is_single (w : cloud) (a : args) (file : option shelf)
        (g : asg_group) :
  snapshot g file <> [] ->
  Z.of_nat (List.length (snapshot g file)) <= batch a ->
  describe_auto_scaling_groups w (group a) = [g] ->
  eventually_terminated w (keys (snapshot g file)) ->
  exists fuel0, forall fuel, (fuel0 <= fuel)%nat ->
    exists st',
      execute w fuel (group a) (batch a) (state_path a) (boot file) = Returned tt st' /\
      removal_lists (trace st') = [key_list (store_backend w) (snapshot g file)] /\
      forall l, In l (removal_lists (trace st')) ->
                forall k, In k l <-> In k (keys (snapshot g file)).
Proof.
  intros Hne Hle Hfound Hev.
  assert (HN : (0 < List.length (snapshot g file))%nat).
  { destruct (snapshot g file); [congruence | simpl; lia]. }
  assert (HB : 0 < batch a) by lia.
  destruct (execute_returns a file Hfound HB Hev) as (fuel0 & Hret).
  exists fuel0. intros fuel Hfuel. destruct (Hret fuel Hfuel) as (st' & Hrun).
  exists st'. split; [exact Hrun|].
  batch_as_nat a b Hb Hpos.
  destruct (complete_run w a file Hfound Hpos Hb fuel Hrun)
    as (ext & n & _ & _ & _ & _ & Hr & _ & Hcov & Hleast & _).
  rewrite length_key_list in Hcov, Hleast.
  assert (En : n = 1%nat).
  { destruct n as [|[|n']]; [lia | reflexivity|].
    specialize (Hleast ltac:(lia)). simpl in Hleast. nia. }
  subst n.
  assert (E : removal_lists (trace st') = [key_list (store_backend w) (snapshot g file)]).
  { rewrite Hr. unfold batches. simpl. rewrite batch_no_nat by exact Hpos.
    simpl. f_equal. apply firstn_all2. rewrite length_key_list. lia. }
  split; [exact E|].
  rewrite E. intros l [<- | []] k. apply in_key_list.
Qed.

Lemma covering_batch_is_single_witness :
  snapshot demo_group None <> [] /\
  Z.of_nat (List.length (snapshot demo_group None)) <= 7 /\
  describe_auto_scaling_groups hashed_cloud "g" = [demo_group] /\
  eventually_terminated hashed_cloud (keys (snapshot demo_group None)) /\
  key_list (store_backend hashed_cloud) (snapshot demo_group None) =
    ["i1"; "i3"; "i5"; "i2"; "i4"] /\
  exists fuel0, forall fuel, (fuel0 <= fuel)%nat ->
    exists st',
      execute hashed_cloud fuel "g" 7 "g.state" (boot None) = Returned tt st' /\
      removal_lists (trace st') =
        [key_list (store_backend hashed_cloud) (snapshot demo_group None)] /\
      forall l, In l (removal_lists (trace st')) ->
                forall k, In k l <-> In k (keys (snapshot demo_group None)).
Proof.
  assert (H1 : snapshot demo_group None <> []) by discriminate.
  assert (H2 : Z.of_nat (List.length (snapshot demo_group None)) <= 7) by (simpl; lia).
  assert (H3 : describe_auto_scaling_groups hashed_cloud "g" = [demo_group]) by reflexivity.
  split; [exact H1|]. split; [exact H2|]. split; [exact H3|].
  split; [apply hashed_eventually_terminated|].
  split; [reflexivity|].
  exact (@covering_batch_is_single hashed_cloud
           {| batch := 7; group := "g"; region := "eu-west-1"; state_path := "g.state" |}
           None demo_group H1 H2 H3 (hashed_eventually_terminated _)).
Defined.

(** ** What [new_instance_state] makes of the store file *)




(** X7.  A store file left by an earlier run takes part in the next one: in
    a successful run with a batch size above 0, every key the file held at the
    start is marked unhealthy and polled until seen terminated, whether the
    group lists it or not. *)
Theorem leftover_keys_are_replaced (w : cloud) (a : args) (file : option shelf)
        (g : asg_group) :
  0 < batch a ->
  describe_auto_scaling_groups w (group a) = [g] ->
  eventually_terminated w (keys (snapshot g file)) ->
  exists fuel0, forall fuel, (fuel0 <= fuel)%nat ->
    exists st',
      execute w fuel (group a) (batch a) (state_path a) (boot file) = Returned tt st' /\
      forall k, In k (keys (state (boot file))) ->
                In (EvSetInstanceHealth k) (trace st') /\
                In (EvReload k "terminated") (trace st').
Proof.
  intros HB Hfound Hev.
  destruct (execute_returns a file Hfound HB Hev) as (fuel0 & Hret).
  exists fuel0. intros fuel Hfuel. destruct (Hret fuel Hfuel) as (st' & Hrun).
  exists st'. split; [exact Hrun|].
  batch_as_nat a b Hb Hpos.
  destruct (complete_run w a file Hfound Hpos Hb fuel Hrun)
    as (ext & n & T & _ & _ & _ & _ & Ht & _ & _ & Hseen).
  intros k Hk.
  assert (HK : In k (keys (snapshot g file))).
  { unfold snapshot. apply in_keys_add_pending. now left. }
  split.
  - apply (in_key_list (store_backend w)) in HK.
    rewrite <- Ht in HK. unfold triggers in HK. apply in_flat_map in HK.
    destruct HK as (e & He & Hin). destruct e; simpl in Hin; try contradiction.
    destruct Hin as [<- | []]. exact He.
  - rewrite T. apply in_or_app. right. now apply Hseen.
Qed.

Lemma leftover_keys_are_replaced_witness :
  0 < batch demo_args /\
  describe_auto_scaling_groups demo_cloud (group demo_args) = [demo_group] /\
  eventually_terminated demo_cloud (keys (snapshot demo_group stale_file)) /\
  exists fuel0, forall fuel, (fuel0 <= fuel)%nat ->
    exists st',
      execute demo_cloud fuel (group demo_args) (batch demo_args) (state_path demo_args)
              (boot stale_file) = Returned tt st' /\
      forall k, In k (keys (state (boot stale_file))) ->
                In (EvSetInstanceHealth k) (trace st') /\
                In (EvReload k "terminated") (trace st').
Proof.
  assert (H1 : 0 < batch demo_args) by reflexivity.
  assert (H2 : describe_auto_scaling_groups demo_cloud (group demo_args) = [demo_group])
    by reflexivity.
  split; [exact H1|]. split; [exact H2|].
  split; [apply demo_eventually_terminated|].
  exact (@leftover_keys_are_replaced demo_cloud demo_args stale_file demo_group H1 H2
           (demo_eventually_terminated _)).
Defined.

(** ** The store file at the end of a run *)


(** On the hashed library the run over the five instances ends with the
    [FileNotFoundError] of [os.unlink], and the store file is left behind. *)
Example hashed_run_leaves_store_file :
  exists st',
    main hashed_cloud 100 demo_args (boot None) = Raised FileNotFoundError st' /\
    store_file_of st' = Some [] /\
    triggers (trace st') = ["i1"; "i3"; "i5"; "i2"; "i4"].
Proof. eexists. split; [vm_compute; reflexivity|]. split; reflexivity. Qed.

(** ** [update_state] and [get_inventory] *)



(** ** The state file chosen by [parse_args] *)

Lemma length_string_append (s t : string) :
  String.length (s ++ t) = (String.length s + String.length t)%nat.
Proof. induction s as [|c s IH]; simpl; [reflexivity | now rewrite IH]. Qed.

Lemma state_suffix_not_dynamic (s : string) : (s ++ ".state")%string <> "dynamic".
Proof.
  destruct s as [|c [|c' s]]; simpl; try discriminate.
  intros H. apply (f_equal String.length) in H. simpl in H.
  rewrite length_string_append in H. simpl in H. lia.
Qed.

(** X10.  [parse_args] replaces the state path ['dynamic'], the default, by
    the group name followed by ['.state'] and leaves any other path and every
    other option alone; so the path it gives is never ['dynamic'], and parsing
    its own result changes nothing. *)
Theorem parse_args_state_path (a : args) :
  (state_path a = "dynamic" -> state_path (parse_args a) = (group a ++ ".state")%string) /\
  (state_path a <> "dynamic" -> parse_args a = a) /\
  state_path (parse_args a) <> "dynamic" /\
  batch (parse_args a) = batch a /\
  group (parse_args a) = group a /\
  region (parse_args a) = region a /\
  parse_args (parse_args a) = parse_args a.
Proof.
  assert (Hd : forall x, state_path x = "dynamic" ->
                         parse_args x = {| batch := batch x; group := group x;
                                           region := region x;
                                           state_path := (group x ++ ".state")%string |}).
  { intros x E. unfold parse_args. now rewrite E. }
  assert (Hn : forall x, state_path x <> "dynamic" -> parse_args x = x).
  { intros x N. unfold parse_args.
    destruct (String.eqb_spec (state_path x) "dynamic"); [contradiction | reflexivity]. }
  destruct (string_dec (state_path a) "dynamic") as [E | N].
  - rewrite (Hd a E). simpl.
    repeat split; try congruence; try apply state_suffix_not_dynamic.
    apply Hn. simpl. apply state_suffix_not_dynamic.
  - rewrite (Hn a N). repeat split; try congruence. now apply Hn.
Qed.

Lemma parse_args_state_path_witness :
  state_path {| batch := 1; group := "web"; region := "eu-west-1"; state_path := "dynamic" |}
  = "dynamic" /\
  state_path (parse_args {| batch := 1; group := "web"; region := "eu-west-1";
                            state_path := "dynamic" |}) = "web.state".
Proof.
  split; [reflexivity|].
  exact (proj1 (parse_args_state_path
                  {| batch := 1; group := "web"; region := "eu-west-1";
                     state_path := "dynamic" |}) eq_refl).
Defined.

(** ** More than one group for the name *)

(** X11.  Whenever [describe_auto_scaling_groups] answers with two groups
    or more, whatever they hold: the run stops on a [TypeError] right after
    the query, without any error logged, with the store file on disk and
    holding what it held before, and without a removal trigger. *)
Theorem several_groups_raise_type_error (w : cloud) (a : args) (file : option shelf)
        (fuel : nat) :
  (2 <= List.length (describe_auto_scaling_groups w (group a)))%nat ->
  exists st',
    main w fuel a (boot file) = Raised TypeError st' /\
    trace st' = query_events (group a) (batch a) (state_path a) /\
    (forall m, ~ In (EvLog ERROR m) (trace st')) /\
    triggers (trace st') = [] /\
    store_file_of st' = Some (state (boot file)).
Proof.
  intros Hlen.
  destruct (describe_auto_scaling_groups w (group a)) as [|g1 [|g2 gs]] eqn:Hg;
    simpl in Hlen; try lia.
  eexists. split; [apply main_ambiguous with (1 := Hg)|]. cbn [trace].
  split; [reflexivity|]. split; [|split; reflexivity].
  intros m H. simpl in H. repeat (destruct H as [H | H]; [discriminate|]). exact H.
Qed.

Lemma several_groups_raise_type_error_witness :
  (2 <= List.length (describe_auto_scaling_groups twin_cloud (group demo_args)))%nat /\
  exists st',
    main twin_cloud 10 demo_args (boot None) = Raised TypeError st' /\
    trace st' = query_events (group demo_args) (batch demo_args) (state_path demo_args) /\
    (forall m, ~ In (EvLog ERROR m) (trace st')) /\
    triggers (trace st') = [] /\
    store_file_of st' = Some (state (boot None)).
Proof.
  assert (H : (2 <= List.length (describe_auto_scaling_groups twin_cloud (group demo_args)))%nat)
    by (simpl; lia).
  split; [exact H|].
  exact (@several_groups_raise_type_error twin_cloud demo_args None 10 H).
Defined.

(** ** The instances a run acts on *)

Lemma touched_adding_events (ids : list instance_id) (e : event) (i : instance_id) :
  In e (adding_events ids) -> touched e = Some i -> In i ids.
Proof.
  induction ids as [|j r IH]; simpl; [tauto|].
  intros [<- | [<- | H]] Ht; simpl in Ht; try discriminate.
  - injection Ht as <-. now left.
  - right. now apply IH.
Qed.

Lemma touched_loop_event (K : list instance_id) (e : event) (i : instance_id) :
  loop_event K e -> touched e = Some i -> In i K.
Proof.
  destruct e as [[] ?| | | | | | | |]; simpl; intros H Ht; try discriminate;
    injection Ht as <-; tauto.
Qed.

(** X12.  A run on a group that is found, whatever the batch size and
    however far it gets, marks unhealthy, reloads and assigns in the store
    only instances that are keys of the snapshot. *)
Theorem run_acts_on_snapshot_only (w : cloud) (a : args) (file : option shelf)
        (g : asg_group) (fuel : nat) :
  describe_auto_scaling_groups w (group a) = [g] ->
  forall e i,
    In e (trace (final (main w fuel a (boot file)))) ->
    touched e = Some i ->
    In i (keys (snapshot g file)).
Proof.
  intros Hfound e i Hin Ht.
  destruct (execute_shape w a file Hfound fuel) as (c & st' & ext & Hrun & T & _ & _ & Hb).
  apply batched_events in Hb. rewrite Forall_forall in Hb.
  assert (Hst : In e (trace st') -> In i (keys (snapshot g file))).
  { rewrite T. unfold snapshot_events, query_events. rewrite !in_app_iff.
    intros [[H | [H | [H | H]]] | H].
    - simpl in H. repeat (destruct H as [H | H]; [subst e; discriminate|]). destruct H.
    - simpl in H. destruct H as [<- | []]. discriminate.
    - unfold snapshot. apply in_keys_add_pending. right.
      eapply touched_adding_events; eassumption.
    - destruct H as [<- | []]. discriminate.
    - apply (proj1 (in_key_list (store_backend w) (snapshot g file) i)).
      eapply touched_loop_event; [apply Hb, H | exact Ht]. }
  unfold main, bind in Hin. rewrite Hrun in Hin. destruct c; [|auto].
  rewrite trace_unlink in Hin.
  apply in_app_or in Hin. destruct Hin as [H | [<- | []]]; [auto | discriminate].
Qed.

Lemma run_acts_on_snapshot_only_witness :
  describe_auto_scaling_groups demo_cloud (group negative_args) = [demo_group] /\
  In (EvSetInstanceHealth "i4")
     (trace (final (main demo_cloud 6 negative_args (boot None)))) /\
  touched (EvSetInstanceHealth "i4") = Some "i4" /\
  In "i4" (keys (snapshot demo_group None)).
Proof.
  assert (H1 : describe_auto_scaling_groups demo_cloud (group negative_args) = [demo_group])
    by reflexivity.
  assert (H2 : In (EvSetInstanceHealth "i4")
                  (trace (final (main demo_cloud 6 negative_args (boot None)))))
    by (vm_compute; tauto).
  split; [exact H1|]. split; [exact H2|]. split; [reflexivity|].
  exact (@run_acts_on_snapshot_only demo_cloud negative_args None demo_group 6 H1
           (EvSetInstanceHealth "i4") "i4" H2 eq_refl).
Defined.

(** ** The sleeps of a run *)

Section Sleeps.

Variable w : cloud.

Lemma monitor_loop_sleeps (fuel : nat) (monitored : list instance_id) (st st' : proc) :
  monitor_loop w fuel monitored st = Returned tt st' ->
  monitored <> [] ->
  (rounds st < rounds st')%nat.
Proof.
  intros Hrun Hne. destruct fuel as [|fuel].
  - destruct monitored; [congruence | discriminate].
  - rewrite monitor_loop_round in Hrun by exact Hne.
    destruct (monitor_loop_spec w fuel (still_monitored w monitored st)
                                (after_round w monitored st))
      as (done & st2 & ext & E & (_ & _ & _ & R) & _).
    rewrite Hrun in E. destruct done; [|discriminate]. injection E as <-.
    simpl in R. lia.
Qed.

Lemma monitor_instance_termination_sleeps (fuel : nat) (ids : list instance_id)
      (st st' : proc) :
  monitor_instance_termination w fuel ids st = Returned tt st' ->
  ids <> [] ->
  (rounds st < rounds st')%nat.
Proof.
  unfold monitor_instance_termination. cbv [bind log emit]. intros Hrun Hne.
  match type of Hrun with context [monitor_loop w fuel ?m ?s] =>
    destruct (monitor_loop w fuel m s) as [[] st2 | | |] eqn:E; try discriminate;
    assert (Hm : m <> [])
  end.
  { destruct ids as [|i r]; [congruence|]. intros Hnil.
    assert (Hin : In i (fold_left dict_add (i :: r) [])).
    { apply in_fold_dict_add. right. now left. }
    rewrite Hnil in Hin. exact Hin. }
  apply monitor_loop_sleeps in E; [|exact Hm]. injection Hrun as <-. exact E.
Qed.

Lemma py_slice_nonempty (A : Type) (l : list A) (idx B : Z) :
  0 <= idx < Z.of_nat (List.length l) -> 0 < B -> py_slice l idx (idx + B) <> [].
Proof.
  intros Hidx HB.
  replace idx with (Z.of_nat (Z.to_nat idx)) by lia.
  replace B with (Z.of_nat (Z.to_nat B)) by lia.
  rewrite py_slice_nat.
  destruct (skipn (Z.to_nat idx) l) as [|x r] eqn:E.
  - apply (f_equal (@List.length A)) in E. rewrite length_skipn in E. simpl in E. lia.
  - destruct (Z.to_nat B) eqn:EB; [lia | discriminate].
Qed.

(** A loop that returns has slept at least once for every iteration it had
    to make. *)
Lemma execute_loop_sleeps (B : Z) (fuel : nat) (idx : Z) (st st' : proc) :
  0 < B -> 0 <= idx ->
  execute_loop w fuel B (Z.of_nat (List.length (state st))) idx st = Returned tt st' ->
  Z.of_nat (rounds st) + (Z.of_nat (List.length (state st)) - idx + B - 1) / B
  <= Z.of_nat (rounds st').
Proof.
  intros HB. revert idx st. induction fuel as [|fuel IH]; intros idx st Hidx Hrun.
  - simpl in Hrun. destruct (Z.ltb_spec idx (Z.of_nat (List.length (state st))));
      [discriminate|].
    injection Hrun as <-.
    assert ((Z.of_nat (List.length (state st)) - idx + B - 1) / B <= 0); [|lia].
    apply Z.lt_succ_r, Z.div_lt_upper_bound; lia.
  - destruct (Z.lt_ge_cases idx (Z.of_nat (List.length (state st)))) as [Hlt | Hge].
    2:{ rewrite execute_loop_stop in Hrun by exact Hge. injection Hrun as <-.
        assert ((Z.of_nat (List.length (state st)) - idx + B - 1) / B <= 0); [|lia].
        apply Z.lt_succ_r, Z.div_lt_upper_bound; lia. }
    rewrite execute_loop_step in Hrun by exact Hlt. unfold bind in Hrun.
    match type of Hrun with context [monitor_instance_termination w fuel ?l ?s] =>
      destruct (monitor_instance_termination_spec w fuel l s)
        as (done & st2 & mext & E & (_ & S2 & _) & Hev & _);
      pose proof (@monitor_instance_termination_sleeps fuel l s) as Hs
    end.
    rewrite E in Hrun. destruct done; [|discriminate].
    specialize (Hs st2 E). cbn [rounds state] in Hs, S2.
    assert (Hslice : py_slice (key_list (store_backend w) (state st)) idx (idx + B) <> []).
    { apply py_slice_nonempty; [rewrite length_key_list; lia | exact HB]. }
    specialize (Hs Hslice).
    assert (Hlen : List.length (state st2) = List.length (state st)).
    { rewrite <- !length_keys, S2.
      f_equal. eapply keys_replay; [eapply monitor_events_loop, Hev | apply key_list_incl]. }
    rewrite <- Hlen in Hrun. apply IH in Hrun; [|lia]. rewrite Hlen in Hrun.
    replace (Z.of_nat (List.length (state st)) - idx + B - 1)
      with (Z.of_nat (List.length (state st)) - (idx + B) + B - 1 + 1 * B) by lia.
    rewrite Z.div_add by lia. lia.
Qed.

End Sleeps.

(** X13.  The polling loop sleeps before it reloads: a run that returns with
    a batch size [B > 0] has slept at least [ceil (N / B)] times, once or more
    for every batch, even when every instance is terminated from the start. *)
Theorem run_sleeps_once_per_batch (w : cloud) (a : args) (file : option shelf)
        (g : asg_group) (fuel : nat) (st' : proc) :
  0 < batch a ->
  describe_auto_scaling_groups w (group a) = [g] ->
  execute w fuel (group a) (batch a) (state_path a) (boot file) = Returned tt st' ->
  (Z.of_nat (List.length (snapshot g file)) + batch a - 1) / batch a
  <= Z.of_nat (rounds st').
Proof.
  intros HB Hfound Hrun.
  rewrite execute_found with (g := g) in Hrun by exact Hfound.
  match type of Hrun with execute_loop w fuel _ _ 0 ?s = _ =>
    pose proof (@execute_loop_sleeps w (batch a) fuel 0 s st' HB (Z.le_refl 0)) as H
  end.
  cbn [state rounds] in H. specialize (H Hrun).
  rewrite rounds_boot, Z.sub_0_r in H. exact H.
Qed.

Lemma run_sleeps_once_per_batch_witness :
  0 < batch demo_args /\
  describe_auto_scaling_groups demo_cloud (group demo_args) = [demo_group] /\
  execute demo_cloud 100 (group demo_args) (batch demo_args) (state_path demo_args)
          (boot None) =
    Returned tt (final (execute demo_cloud 100 (group demo_args) (batch demo_args)
                                (state_path demo_args) (boot None))) /\
  (Z.of_nat (List.length (snapshot demo_group None)) + batch demo_args - 1) / batch demo_args
  <= Z.of_nat (rounds (final (execute demo_cloud 100 (group demo_args) (batch demo_args)
                                      (state_path demo_args) (boot None)))).
Proof.
  assert (H1 : 0 < batch demo_args) by reflexivity.
  assert (H2 : describe_auto_scaling_groups demo_cloud (group demo_args) = [demo_group])
    by reflexivity.
  assert (H3 : execute demo_cloud 100 (group demo_args) (batch demo_args)
                       (state_path demo_args) (boot None) =
               Returned tt (final (execute demo_cloud 100 (group demo_args)
                                           (batch demo_args) (state_path demo_args)
                                           (boot None))))
    by (vm_compute; reflexivity).
  split; [exact H1|]. split; [exact H2|]. split; [exact H3|].
  exact (@run_sleeps_once_per_batch demo_cloud demo_args None demo_group 100 _ H1 H2 H3).
Defined.

(** ** A negative batch size *)

Lemma py_slice_negative_cursor (A : Type) (l : list A) (idx B : Z) :
  idx < 0 -> B < 0 -> py_slice l idx (idx + B) = [].
Proof.
  intros Hidx HB. unfold py_slice, py_bound.
  destruct (Z.ltb_spec idx 0); [|lia]. destruct (Z.ltb_spec (idx + B) 0); [|lia].
  replace (Z.to_nat _) with 0%nat by lia. reflexivity.
Qed.

Lemma py_slice_negative_stop (A : Type) (l : list A) (B : Z) :
  B < 0 -> py_slice l 0 (0 + B) = firstn (Z.to_nat (Z.of_nat (List.length l) + B)) l.
Proof.
  intros HB. unfold py_slice, py_bound.
  change (0 <? 0) with false. cbv iota.
  destruct (Z.ltb_spec (0 + B) 0); [|lia].
  replace (Z.to_nat (Z.min 0 (Z.of_nat (List.length l)))) with 0%nat by lia.
  cbn [skipn]. f_equal. lia.
Qed.

Lemma triggers_iteration_any (K : list instance_id) (B N idx : Z) (mext : list event) :
  Forall (monitor_event (py_slice K idx (idx + B))) mext ->
  triggers (iteration_head K B N idx ++ mext) = py_slice K idx (idx + B).
Proof.
  intros Hev. destruct (monitor_event_quiet Hev) as (T & _).
  unfold iteration_head. rewrite !triggers_app, T, triggers_trigger_events.
  simpl. now rewrite app_nil_r.
Qed.

Lemma batched_negative_quiet (K : list instance_id) (B N : Z) (c : bool) (idx : Z)
      (ext : list event) :
  batched K B N c idx ext -> B < 0 -> idx < 0 -> triggers ext = [].
Proof.
  induction 1 as [| | idx mext Hlt Hev | c idx mext rest Hlt Hev Hseen Hb IH];
    intros HB Hidx; try reflexivity.
  - rewrite (@triggers_iteration_any _ _ _ _ _ Hev). now apply py_slice_negative_cursor.
  - rewrite app_assoc, triggers_app, (@triggers_iteration_any _ _ _ _ _ Hev), IH by lia.
    rewrite app_nil_r. now apply py_slice_negative_cursor.
Qed.

Lemma triggers_of_prefix (tr pre post : list event) (L rest : list instance_id) :
  tr = pre ++ post -> L = triggers tr ++ rest -> L = triggers pre ++ triggers post ++ rest.
Proof. intros -> ->. now rewrite triggers_app, <- app_assoc. Qed.

(** X14.  With a negative batch size [B] the first slice is [keys[0:B]]:
    every key of the snapshot but the last [-B], in the order in which
    [keys()] lists them.  A run marks the instances of that slice unhealthy
    one after the other and nothing else ever, since every later slice is
    empty: at every moment the instances marked so far are the first of that
    slice, and at the end of the call they are all of them or none yet. *)
Theorem negative_batch_single_wave (w : cloud) (a : args) (file : option shelf)
        (g : asg_group) (fuel : nat) :
  batch a < 0 ->
  describe_auto_scaling_groups w (group a) = [g] ->
  (triggers (trace (final (main w fuel a (boot file)))) = [] \/
   triggers (trace (final (main w fuel a (boot file)))) =
   firstn (Z.to_nat (Z.of_nat (List.length (snapshot g file)) + batch a))
          (key_list (store_backend w) (snapshot g file))) /\
  forall pre post,
    trace (final (main w fuel a (boot file))) = pre ++ post ->
    exists rest,
      firstn (Z.to_nat (Z.of_nat (List.length (snapshot g file)) + batch a))
             (key_list (store_backend w) (snapshot g file)) =
      triggers pre ++ rest.
Proof.
  intros HB Hfound.
  destruct (execute_shape w a file Hfound fuel) as (c & st' & ext & Hrun & T & _ & _ & Hb).
  destruct (snapshot_events_quiet a g (state (boot file))) as (Q & _).
  assert (Et : triggers (trace (final (main w fuel a (boot file)))) = triggers ext).
  { unfold main, bind. rewrite Hrun. destruct c.
    - rewrite trace_unlink, T, !triggers_app, Q. simpl. now rewrite app_nil_r.
    - simpl. now rewrite T, !triggers_app, Q. }
  set (slice := firstn (Z.to_nat (Z.of_nat (List.length (snapshot g file)) + batch a))
                       (key_list (store_backend w) (snapshot g file))).
  assert (Hend : triggers ext = [] \/ triggers ext = slice).
  { unfold slice. rewrite <- (length_key_list (store_backend w) (snapshot g file)).
    inversion Hb as [| | idx mext Hlt Hev | c' idx mext rest Hlt Hev Hseen Hrest]; subst.
    - now left.
    - now left.
    - right. rewrite (@triggers_iteration_any _ _ _ _ _ Hev).
      now apply py_slice_negative_stop.
    - right. rewrite app_assoc, triggers_app, (@triggers_iteration_any _ _ _ _ _ Hev).
      rewrite (batched_negative_quiet Hrest) by lia.
      rewrite app_nil_r. now apply py_slice_negative_stop. }
  rewrite Et. split; [exact Hend|].
  intros pre post Hsplit.
  assert (Hall : exists rest, slice = triggers (trace (final (main w fuel a (boot file))))
                                      ++ rest).
  { rewrite Et. destruct Hend as [-> | ->]; [now exists slice | exists []].
    now rewrite app_nil_r. }
  destruct Hall as (rest & Hrest).
  exists (triggers post ++ rest). exact (@triggers_of_prefix _ pre post slice rest Hsplit Hrest).
Qed.

Lemma negative_batch_single_wave_witness :
  batch negative_args < 0 /\
  describe_auto_scaling_groups hashed_cloud (group negative_args) = [demo_group] /\
  trace (final (main hashed_cloud 6 negative_args (boot None))) =
    firstn 23 (trace (final (main hashed_cloud 6 negative_args (boot None)))) ++
    skipn 23 (trace (final (main hashed_cloud 6 negative_args (boot None)))) /\
  triggers (firstn 23 (trace (final (main hashed_cloud 6 negative_args (boot None))))) =
    ["i1"; "i3"] /\
  triggers (trace (final (main hashed_cloud 6 negative_args (boot None)))) =
    ["i1"; "i3"; "i5"; "i2"] /\
  exists rest,
    firstn (Z.to_nat (Z.of_nat (List.length (snapshot demo_group None)) + batch negative_args))
           (key_list (store_backend hashed_cloud) (snapshot demo_group None)) =
    triggers (firstn 23 (trace (final (main hashed_cloud 6 negative_args (boot None)))))
      ++ rest.
Proof.
  assert (H1 : batch negative_args < 0) by reflexivity.
  assert (H2 : describe_auto_scaling_groups hashed_cloud (group negative_args) = [demo_group])
    by reflexivity.
  assert (H3 : trace (final (main hashed_cloud 6 negative_args (boot None))) =
               firstn 23 (trace (final (main hashed_cloud 6 negative_args (boot None)))) ++
               skipn 23 (trace (final (main hashed_cloud 6 negative_args (boot None)))))
    by (vm_compute; reflexivity).
  split; [exact H1|]. split; [exact H2|]. split; [exact H3|].
  split; [vm_compute; reflexivity|]. split; [vm_compute; reflexivity|].
  exact (proj2 (@negative_batch_single_wave hashed_cloud negative_args None demo_group 6
                  H1 H2) _ _ H3).
Defined.
